(** * InvestCalc: the monthly-investment calculator

    A shallow embedding of [calculateInvestment] (the only computation of
    the application, in [App]) and of the state it reads and writes,
    followed by the properties of the projection it produces.  Around it:
    the [onChange] handlers of the four number fields and the guard they
    feed, what the first result card takes from the result, and the install
    banner of [InstallPrompt] as a transition system.

    Numbers.  The program computes with JavaScript numbers.  They are
    modelled here as exact rationals extended with the three special values
    of JavaScript arithmetic, [Infinity], [-Infinity] and [NaN]: every
    operation gives the value JavaScript specifies for it, computed without
    rounding, and a zero has no sign (it divides like [+0]).  What a division
    by zero produces is therefore modelled, what rounding to 53 bits produces
    is not.

    Inputs.  [years] is a whole number of years, so that
    [totalMonths = years * 12] and [monthsElapsed = year * 12] are whole
    exponents; the three other inputs are finite numbers: a state cell is
    only ever set from a constant or from a parsed field clamped into a
    finite interval. *)

From Stdlib Require Import ZArith QArith Qpower Qabs Qfield Qminmax List Bool Lia Lra Psatz.
Import ListNotations.

Local Open Scope Q_scope.

(** ** JavaScript numbers *)

Inductive number : Type :=
| Fin (q : Q)
| PInf
| NInf
| NaN.

Module Num.

Definition zero : number := Fin 0.
Definition one : number := Fin 1.
Definition of_Z (z : Z) : number := Fin (inject_Z z).

Definition neg (a : number) : number :=
  match a with
  | Fin x => Fin (- x)
  | PInf => NInf
  | NInf => PInf
  | NaN => NaN
  end.

(** [a + b] *)
Definition add (a b : number) : number :=
  match a, b with
  | NaN, _ | _, NaN => NaN
  | Fin x, Fin y => Fin (x + y)
  | PInf, NInf | NInf, PInf => NaN
  | PInf, _ | _, PInf => PInf
  | NInf, _ | _, NInf => NInf
  end.

(** [a - b] *)
Definition sub (a b : number) : number := add a (neg b).

(** An infinity of the sign of [c], or [NaN] when [c] is zero. *)
Definition signed_inf (c : comparison) : number :=
  match c with
  | Gt => PInf
  | Lt => NInf
  | Eq => NaN
  end.

(** [a * b] *)
Definition mul (a b : number) : number :=
  match a, b with
  | NaN, _ | _, NaN => NaN
  | Fin x, Fin y => Fin (x * y)
  | Fin x, PInf | PInf, Fin x => signed_inf (x ?= 0)
  | Fin x, NInf | NInf, Fin x => signed_inf (0 ?= x)
  | PInf, PInf | NInf, NInf => PInf
  | PInf, NInf | NInf, PInf => NInf
  end.

(** [a / b]: a finite quotient when the divisor is not zero; a non-zero
    number over zero is an infinity, zero over zero is [NaN]. *)
Definition div (a b : number) : number :=
  match a, b with
  | NaN, _ | _, NaN => NaN
  | Fin x, Fin y =>
      match y ?= 0 with
      | Eq => signed_inf (x ?= 0)
      | _ => Fin (x / y)
      end
  | Fin _, PInf | Fin _, NInf => Fin 0
  | PInf, Fin y => match y ?= 0 with Lt => NInf | _ => PInf end
  | NInf, Fin y => match y ?= 0 with Lt => PInf | _ => NInf end
  | _, _ => NaN
  end.

(** [Math.pow a e] for a whole exponent [e]. *)
Definition pow (a : number) (e : Z) : number :=
  match e with
  | Z0 => Fin 1
  | Zpos p =>
      match a with
      | Fin x => Fin (Qpower_positive x p)
      | PInf => PInf
      | NInf => if Z.odd (Zpos p) then NInf else PInf
      | NaN => NaN
      end
  | Zneg p =>
      match a with
      | Fin x => div (Fin 1) (Fin (Qpower_positive x p))
      | PInf | NInf => Fin 0
      | NaN => NaN
      end
  end.

(** [a < b]; false as soon as one side is [NaN]. *)
Definition ltb (a b : number) : bool :=
  match a, b with
  | NaN, _ | _, NaN => false
  | Fin x, Fin y => match x ?= y with Lt => true | _ => false end
  | NInf, Fin _ | NInf, PInf | Fin _, PInf => true
  | _, _ => false
  end.

(** [a == b] on numbers; false as soon as one side is [NaN]. *)
Definition eqb (a b : number) : bool :=
  match a, b with
  | Fin x, Fin y => Qeq_bool x y
  | PInf, PInf | NInf, NInf => true
  | _, _ => false
  end.

Definition leb (a b : number) : bool := ltb a b || eqb a b.
Definition gtb (a b : number) : bool := ltb b a.
Definition geb (a b : number) : bool := leb b a.

(** [Math.abs a] *)
Definition abs (a : number) : number :=
  match a with
  | Fin x => Fin (Qabs x)
  | PInf | NInf => PInf
  | NaN => NaN
  end.

(** [a] is within relative tolerance [tol] of [b]:
    [Math.abs(a - b) <= tol * Math.abs(b)]. *)
Definition close_to (tol : Q) (a b : number) : bool :=
  leb (abs (sub a b)) (mul (Fin tol) (abs b)).

(** [Math.max a b]: [NaN] as soon as one side is [NaN]. *)
Definition max (a b : number) : number :=
  match a, b with
  | NaN, _ | _, NaN => NaN
  | _, _ => if ltb a b then b else a
  end.

(** [Math.min a b]: [NaN] as soon as one side is [NaN]. *)
Definition min (a b : number) : number :=
  match a, b with
  | NaN, _ | _, NaN => NaN
  | _, _ => if ltb b a then b else a
  end.

End Num.

(** ** The result structure, [interface CalculationResult] *)

Module YearRecord.
Record t : Type := mk {
  year : Z;
  totalValue : number;
  totalInvested : number;
  initialCapital : number;
  profit : number
}.
End YearRecord.

Module CalculationResult.
Record t : Type := mk {
  monthlyInvestment : number;
  totalInvested : number;
  initialCapital : number;
  totalProfit : number;
  yearlyBreakdown : list YearRecord.t
}.
End CalculationResult.

(** ** The component state and [calculateInvestment] *)

Module App.

(** The five [useState] cells of [App]. *)
Record state : Type := mkState {
  years : Z;
  targetAmount : Q;
  annualReturn : Q;
  initialCapital : Q;
  result : option CalculationResult.t
}.

Definition setResult (v : option CalculationResult.t) (st : state) : state :=
  {| years := years st;
     targetAmount := targetAmount st;
     annualReturn := annualReturn st;
     initialCapital := initialCapital st;
     result := v |}.

(** The body of the yearly loop: the record pushed for [year]. *)
Definition yearRecord (monthlyRate monthlyInvestment initialCapital : number)
    (year : Z) : YearRecord.t :=
  let monthsElapsed := (year * 12)%Z in
  let investedSoFar := Num.mul monthlyInvestment (Num.of_Z monthsElapsed) in
  let futureValueOfInitialAtYear :=
    Num.mul initialCapital (Num.pow (Num.add Num.one monthlyRate) monthsElapsed) in
  let futureValueOfMonthlyAtYear :=
    Num.mul monthlyInvestment
      (Num.div (Num.sub (Num.pow (Num.add Num.one monthlyRate) monthsElapsed) Num.one)
               monthlyRate) in
  let totalValue := Num.add futureValueOfInitialAtYear futureValueOfMonthlyAtYear in
  let profit := Num.sub (Num.sub totalValue investedSoFar) initialCapital in
  {| YearRecord.year := year;
     YearRecord.totalValue := totalValue;
     YearRecord.totalInvested := investedSoFar;
     YearRecord.initialCapital := initialCapital;
     YearRecord.profit := profit |}.

(** [for (let year = ...; year <= years; year++) yearlyBreakdown.push(body year)],
    entered with the counter at [year] and the array at [acc]; [fuel]
    bounds the number of iterations. *)
Fixpoint yearLoop (fuel : nat) (body : Z -> YearRecord.t) (years year : Z)
    (acc : list YearRecord.t) : list YearRecord.t :=
  match fuel with
  | O => acc
  | S fuel' =>
      if (year <=? years)%Z
      then yearLoop fuel' body years (year + 1)%Z (acc ++ [body year])
      else acc
  end.

Definition calculateInvestment (st : state) : state :=
  if (years st <=? 0)%Z
     || Num.leb (Fin (targetAmount st)) Num.zero
     || Num.ltb (Fin (annualReturn st)) Num.zero
     || Num.ltb (Fin (initialCapital st)) Num.zero
  then setResult None st
  else
    let initialCapital := Fin (initialCapital st) in
    let targetAmount := Fin (targetAmount st) in
    let monthlyRate := Num.div (Num.div (Fin (annualReturn st)) (Fin 100)) (Fin 12) in
    let totalMonths := (years st * 12)%Z in
    let futureValueOfInitial :=
      Num.mul initialCapital (Num.pow (Num.add Num.one monthlyRate) totalMonths) in
    let remainingAmount := Num.sub targetAmount futureValueOfInitial in
    let monthlyInvestment :=
      if Num.gtb remainingAmount Num.zero
      then Num.div remainingAmount
             (Num.div (Num.sub (Num.pow (Num.add Num.one monthlyRate) totalMonths) Num.one)
                      monthlyRate)
      else Num.zero in
    let totalInvested := Num.mul monthlyInvestment (Num.of_Z totalMonths) in
    let totalProfit := Num.sub (Num.sub targetAmount totalInvested) initialCapital in
    let yearlyBreakdown :=
      yearLoop (Z.to_nat (years st))
               (yearRecord monthlyRate monthlyInvestment initialCapital)
               (years st) 1%Z [] in
    setResult
      (Some {| CalculationResult.monthlyInvestment := monthlyInvestment;
               CalculationResult.totalInvested := totalInvested;
               CalculationResult.initialCapital := initialCapital;
               CalculationResult.totalProfit := totalProfit;
               CalculationResult.yearlyBreakdown := yearlyBreakdown |})
      st.

End App.

(** [project], the function of the four inputs that the component computes:
    [calculateInvestment] run on a state holding them, and the result it
    stores ([None] for the cleared result). *)
Definition project (years : Z) (targetAmount annualReturnPercent initialCapital : Q)
  : option CalculationResult.t :=
  App.result
    (App.calculateInvestment
       (App.mkState years targetAmount annualReturnPercent initialCapital None)).

(** ** Valid inputs and the formulas of the specification *)

(** The inputs for which a projection is produced. *)
Definition valid (years : Z) (targetAmount annualReturnPercent initialCapital : Q) : Prop :=
  (0 < years)%Z /\ 0 < targetAmount /\ 0 <= annualReturnPercent /\ 0 <= initialCapital.

(** Step 1 of the algorithm: [annualReturnPercent / 100 / 12]. *)
Definition monthlyRate (annualReturnPercent : Q) : number :=
  Num.div (Num.div (Fin annualReturnPercent) (Fin 100)) (Fin 12).

(** Step 3: the capital compounded over [n] months, [capital * (1 + r)^n]. *)
Definition compounded (capital r : number) (n : Z) : number :=
  Num.mul capital (Num.pow (Num.add Num.one r) n).

(** The annuity denominator of step 5, [((1 + r)^n - 1) / r]. *)
Definition annuityFactor (r : number) (n : Z) : number :=
  Num.div (Num.sub (Num.pow (Num.add Num.one r) n) Num.one) r.

(** Steps 4 and 5: the level payment that closes the gap left by the
    compounded capital, or zero when there is no gap. *)
Definition requiredPayment (target capital r : number) (n : Z) : number :=
  let remainingAmount := Num.sub target (compounded capital r n) in
  if Num.gtb remainingAmount Num.zero
  then Num.div remainingAmount (annuityFactor r n)
  else Num.zero.

(** Step 8: the compounding-plus-annuity value after [monthsElapsed] months. *)
Definition projectedValue (capital payment r : number) (monthsElapsed : Z) : number :=
  Num.add (compounded capital r monthsElapsed)
          (Num.mul payment (annuityFactor r monthsElapsed)).

(** The whole numbers [start], [start + 1], ..., [n] of them. *)
Fixpoint countFrom (start : Z) (n : nat) : list Z :=
  match n with
  | O => []
  | S n' => start :: countFrom (start + 1)%Z n'
  end.

(** The test that opens [calculateInvestment], under a name. *)
Definition invalid (years : Z) (targetAmount annualReturnPercent initialCapital : Q) : bool :=
  (years <=? 0)%Z
  || Num.leb (Fin targetAmount) Num.zero
  || Num.ltb (Fin annualReturnPercent) Num.zero
  || Num.ltb (Fin initialCapital) Num.zero.

(** ** The same formulas over the rationals *)

(** [1 + x + ... + x^(n-1)], the annuity factor in closed form. *)
Fixpoint geometric (x : Q) (n : nat) : Q :=
  match n with
  | O => 0
  | S n' => 1 + x * geometric x n'
  end.

(** The monthly rate for an annual return of [a] percent. *)
Definition Qrate (a : Q) : Q := a / 100 / 12.

(** [(1 + r)^e] *)
Definition Qgrowth (a : Q) (e : Z) : Q := (1 + Qrate a) ^ e.

(** [((1 + r)^e - 1) / r], meaningful for [r <> 0]. *)
Definition Qannuity (a : Q) (e : Z) : Q := (Qgrowth a e - 1) / Qrate a.

(** The payment that takes capital [P] to target [T] in [e] months. *)
Definition Qpayment (T P a : Q) (e : Z) : Q :=
  let remaining := T - P * Qgrowth a e in
  if Qlt_le_dec 0 remaining then remaining / Qannuity a e else 0.

(** The value of capital [P] and payments [m] after [e] months. *)
Definition Qvalue (P m a : Q) (e : Z) : Q := P * Qgrowth a e + m * Qannuity a e.

(** ** The number fields and their [onChange] handlers *)

Module Field.

(** [value === '' ? 0 : Number(value)].  The text of the field is given by
    the number it parses to: [None] for the empty string, [Some n] when
    [Number(value)] is [n]. *)
Definition numValue (value : option number) : number :=
  match value with
  | None => Num.zero
  | Some n => n
  end.

(** [Math.min(Math.max(numValue, 0), hi)], the argument of each setter. *)
Definition clamp (hi : Q) (value : option number) : number :=
  Num.min (Num.max (numValue value) Num.zero) (Fin hi).

Definition initialCapital (value : option number) : number := clamp 10000000 value.
Definition years (value : option number) : number := clamp 50 value.
Definition targetAmount (value : option number) : number := clamp 50000000 value.
Definition annualReturn (value : option number) : number := clamp 30 value.

(** The test that opens [calculateInvestment], on the numbers the four cells
    hold: [years <= 0 || targetAmount <= 0 || annualReturn < 0 ||
    initialCapital < 0]. *)
Definition guard (years targetAmount annualReturn initialCapital : number) : bool :=
  Num.leb years Num.zero
  || Num.leb targetAmount Num.zero
  || Num.ltb annualReturn Num.zero
  || Num.ltb initialCapital Num.zero.

End Field.

(** ** The clamp on finite and on whole numbers *)

Module Session.

(** The clamp on finite numbers and on whole numbers. *)
Definition clampQ (hi v : Q) : Q := Qmin (Qmax v 0) hi.
Definition clampZ (hi v : Z) : Z := Z.min (Z.max v 0) hi.

Definition valueQ (value : option Q) : Q :=
  match value with
  | None => 0
  | Some q => q
  end.

Definition valueZ (value : option Z) : Z :=
  match value with
  | None => 0%Z
  | Some z => z
  end.

End Session.

(** ** What the result cards show *)

Module View.

(** The two titles of the first card: "monthly investment" and "the initial
    capital is sufficient". *)
Inductive title : Type :=
| MonthlyInvestmentTitle
| CapitalSufficientTitle.

(** [result.monthlyInvestment > 0 ? ... : ...] in the card's title. *)
Definition cardTitle (res : CalculationResult.t) : title :=
  if Num.gtb (CalculationResult.monthlyInvestment res) Num.zero
  then MonthlyInvestmentTitle
  else CapitalSufficientTitle.

(** The amount handed to [formatCurrencyPrecise] in the first card. *)
Definition cardAmount (res : CalculationResult.t) : number :=
  if Num.gtb (CalculationResult.monthlyInvestment res) Num.zero
  then CalculationResult.monthlyInvestment res
  else Fin 0.

End View.

(** ** The install banner, [InstallPrompt] *)

Module InstallPrompt.

Section Banner.

(** The browser's [BeforeInstallPromptEvent] objects. *)
Variable Event : Type.

Inductive outcome : Type :=
| accepted
| dismissed.

(** The two [useState] cells, and the number of [handleInstall] calls that
    have called [prompt()] and wait for [userChoice]. *)
Record state : Type := mkState {
  deferredPrompt : option Event;
  showPrompt : bool;
  awaiting : nat
}.

Inductive action : Type :=
| BeforeInstallPrompt (e : Event)
| ClickInstall
| UserChoice (o : outcome)
| ClickDismiss.

Definition initial : state := mkState None false 0.

(** The listener of [beforeinstallprompt]. *)
Definition handler (e : Event) (st : state) : state :=
  mkState (Some e) true (awaiting st).

(** [handleInstall] up to its [await]: the event [prompt()] is called on,
    if any. *)
Definition prompted (st : state) : option Event := deferredPrompt st.

Definition handleInstall_click (st : state) : state :=
  match deferredPrompt st with
  | None => st
  | Some _ => mkState (deferredPrompt st) (showPrompt st) (S (awaiting st))
  end.

(** [handleInstall] from its [await] on, once [userChoice] gives [o]. *)
Definition handleInstall_resume (o : outcome) (st : state) : state :=
  match awaiting st with
  | O => st
  | S n =>
      match o with
      | accepted => mkState None false n
      | dismissed => mkState (deferredPrompt st) (showPrompt st) n
      end
  end.

Definition handleDismiss (st : state) : state :=
  mkState (deferredPrompt st) false (awaiting st).

Definition step (st : state) (a : action) : state :=
  match a with
  | BeforeInstallPrompt e => handler e st
  | ClickInstall => handleInstall_click st
  | UserChoice o => handleInstall_resume o st
  | ClickDismiss => handleDismiss st
  end.

Definition runFrom (st : state) (events : list action) : state := fold_left step events st.

Definition run (events : list action) : state := runFrom initial events.

(** The component renders the banner unless
    [!showPrompt || !deferredPrompt]. *)
Definition rendered (st : state) : bool :=
  negb (negb (showPrompt st)
        || match deferredPrompt st with None => true | Some _ => false end).

(** A shown banner has an event to prompt. *)
Definition consistent (st : state) : Prop :=
  showPrompt st = true -> deferredPrompt st <> None.

(** The browser announces that the application can be installed. *)
Definition captures (a : action) : bool :=
  match a with
  | BeforeInstallPrompt _ => true
  | _ => false
  end.

(** The user accepts the installation. *)
Definition accepts (a : action) : bool :=
  match a with
  | UserChoice accepted => true
  | _ => false
  end.

(** The user dismisses the banner or accepts the installation. *)
Definition hides (a : action) : bool :=
  match a with
  | ClickDismiss => true
  | _ => accepts a
  end.

End Banner.

Arguments mkState {Event} _ _ _.
Arguments deferredPrompt {Event} _.
Arguments showPrompt {Event} _.
Arguments awaiting {Event} _.
Arguments BeforeInstallPrompt {Event} _.
Arguments ClickInstall {Event}.
Arguments UserChoice {Event} _.
Arguments ClickDismiss {Event}.
Arguments initial {Event}.
Arguments handler {Event} _ _.
Arguments prompted {Event} _.
Arguments handleInstall_click {Event} _.
Arguments handleInstall_resume {Event} _ _.
Arguments handleDismiss {Event} _.
Arguments step {Event} _ _.
Arguments runFrom {Event} _ _.
Arguments run {Event} _.
Arguments rendered {Event} _.
Arguments consistent {Event} _.
Arguments captures {Event} _.
Arguments accepts {Event} _.
Arguments hides {Event} _.

End InstallPrompt.

(** * Properties *)

(** ** Comparisons and division of finite numbers *)

Lemma ltb_Fin (x y : Q) : Num.ltb (Fin x) (Fin y) = true <-> x < y.
Proof.
  simpl. rewrite Qlt_alt. destruct (x ?= y); intuition congruence.
Qed.

Lemma eqb_Fin (x y : Q) : Num.eqb (Fin x) (Fin y) = true <-> x == y.
Proof. apply Qeq_bool_iff. Qed.

Lemma leb_Fin (x y : Q) : Num.leb (Fin x) (Fin y) = true <-> x <= y.
Proof.
  unfold Num.leb. rewrite orb_true_iff, ltb_Fin, eqb_Fin, Qle_lteq. tauto.
Qed.

Lemma gtb_Fin (x y : Q) : Num.gtb (Fin x) (Fin y) = true <-> y < x.
Proof. apply ltb_Fin. Qed.

Lemma gtb_Fin_false (x y : Q) : Num.gtb (Fin x) (Fin y) = false <-> x <= y.
Proof.
  rewrite <- not_true_iff_false, gtb_Fin. split; [apply Qnot_lt_le | apply Qle_not_lt].
Qed.

Lemma div_Fin (x y : Q) : ~ y == 0 -> Num.div (Fin x) (Fin y) = Fin (x / y).
Proof.
  intros Hy. simpl. destruct (Qcompare_spec y 0) as [E | _ | _]; [contradiction | reflexivity ..].
Qed.

Lemma div_zero_by_zero (x y : Q) : x == 0 -> y == 0 -> Num.div (Fin x) (Fin y) = NaN.
Proof.
  intros Hx Hy. simpl.
  apply Qeq_alt in Hx. apply Qeq_alt in Hy. now rewrite Hy, Hx.
Qed.

Lemma pow_Fin (x : Q) (e : Z) : (0 < e)%Z -> Num.pow (Fin x) e = Fin (x ^ e).
Proof.
  destruct e as [| p | p]; intros He; [lia | reflexivity | lia].
Qed.

Lemma monthlyRate_Fin (a : Q) : monthlyRate a = Fin (a / 100 / 12).
Proof. reflexivity. Qed.

(** ** The guard *)

(** Closes [valid y T a P] at concrete inputs. *)
Ltac valid_by_computation :=
  unfold valid; repeat split; try lia; vm_compute; congruence.

Lemma invalid_true_iff (y : Z) (T a P : Q) :
  invalid y T a P = true <-> ((y <= 0)%Z \/ T <= 0 \/ a < 0 \/ P < 0).
Proof.
  unfold invalid, Num.zero.
  rewrite !orb_true_iff, Z.leb_le, leb_Fin, !ltb_Fin. tauto.
Qed.

Lemma valid_not_invalid (y : Z) (T a P : Q) :
  valid y T a P <-> invalid y T a P = false.
Proof.
  rewrite <- not_true_iff_false, invalid_true_iff. unfold valid. split.
  - intros (Hy & HT & Ha & HP) [H | [H | [H | H]]]; try lia; lra.
  - intros H. repeat split.
    + lia.
    + apply Qnot_le_lt. tauto.
    + apply Qnot_lt_le. tauto.
    + apply Qnot_lt_le. tauto.
Qed.

(** ** The yearly loop *)

Lemma yearLoop_countFrom (body : Z -> YearRecord.t) (years : Z) (fuel : nat) :
  forall (year : Z) (acc : list YearRecord.t),
    (Z.to_nat (years - year + 1) <= fuel)%nat ->
    App.yearLoop fuel body years year acc
    = acc ++ map body (countFrom year (Z.to_nat (years - year + 1))).
Proof.
  induction fuel as [| fuel IH]; intros year acc Hfuel.
  - assert (E : Z.to_nat (years - year + 1) = O) by lia.
    rewrite E. simpl. now rewrite app_nil_r.
  - simpl. destruct (Z.leb_spec year years) as [Hle | Hgt].
    + rewrite IH by lia.
      replace (Z.to_nat (years - year + 1)) with (S (Z.to_nat (years - (year + 1) + 1))) by lia.
      simpl. now rewrite <- app_assoc.
    + replace (Z.to_nat (years - year + 1)) with O by lia.
      simpl. now rewrite app_nil_r.
Qed.

(** The loop leaves by its test, not for want of fuel: any larger bound
    gives the same array. *)
Lemma yearLoop_fuel_irrelevant (body : Z -> YearRecord.t) (years : Z) (fuel : nat) :
  (Z.to_nat years <= fuel)%nat ->
  App.yearLoop fuel body years 1 [] = App.yearLoop (Z.to_nat years) body years 1 [].
Proof.
  intros Hfuel. now rewrite !yearLoop_countFrom by lia.
Qed.

Lemma countFrom_length (start : Z) (n : nat) : length (countFrom start n) = n.
Proof.
  revert start. induction n as [| n IH]; intros start; simpl; [reflexivity | now rewrite IH].
Qed.

Lemma countFrom_nth (n : nat) :
  forall (start : Z) (i : nat),
    (i < n)%nat -> nth_error (countFrom start n) i = Some (start + Z.of_nat i)%Z.
Proof.
  induction n as [| n IH]; intros start i Hi; [lia |].
  destruct i as [| i]; simpl.
  - f_equal. lia.
  - rewrite IH by lia. f_equal. lia.
Qed.

(** ** What [project] returns *)

Lemma project_unfold (y : Z) (T a P : Q) :
  project y T a P =
  if invalid y T a P then None
  else
    let r := monthlyRate a in
    let m := requiredPayment (Fin T) (Fin P) r (y * 12) in
    Some {| CalculationResult.monthlyInvestment := m;
            CalculationResult.totalInvested := Num.mul m (Num.of_Z (y * 12));
            CalculationResult.initialCapital := Fin P;
            CalculationResult.totalProfit := Num.sub (Num.sub (Fin T) (Num.mul m (Num.of_Z (y * 12)))) (Fin P);
            CalculationResult.yearlyBreakdown :=
              App.yearLoop (Z.to_nat y) (App.yearRecord r m (Fin P)) y 1 [] |}.
Proof.
  unfold project, App.calculateInvestment, invalid. cbn [App.years App.targetAmount App.annualReturn App.initialCapital].
  destruct (_ || _ || _ || _); reflexivity.
Qed.

(** ** The arithmetic of compounding, over the rationals *)

Lemma Qpower_succ (x : Q) (n : nat) : x ^ Z.of_nat (S n) == x * x ^ Z.of_nat n.
Proof.
  rewrite Nat2Z.inj_succ. unfold Z.succ. rewrite Z.add_comm.
  rewrite Qpower_plus' by lia. now rewrite Qpower_1_r.
Qed.

Lemma geometric_closed (x : Q) (n : nat) :
  (x - 1) * geometric x n == x ^ Z.of_nat n - 1.
Proof.
  induction n as [| n IH].
  - simpl. ring.
  - rewrite Qpower_succ. cbn [geometric].
    setoid_replace ((x - 1) * (1 + x * geometric x n))
      with (x - 1 + x * ((x - 1) * geometric x n)) by ring.
    rewrite IH. ring.
Qed.

Lemma geometric_ge_count (x : Q) (n : nat) :
  1 <= x -> inject_Z (Z.of_nat n) <= geometric x n.
Proof.
  intros Hx. induction n as [| n IH].
  - apply Qle_refl.
  - rewrite Nat2Z.inj_succ. unfold Z.succ. rewrite inject_Z_plus.
    cbn [geometric]. change (inject_Z 1) with 1.
    assert (0 <= inject_Z (Z.of_nat n)).
    { change 0 with (inject_Z 0). rewrite <- Zle_Qle. lia. }
    nra.
Qed.

Lemma Qrate_scale (a : Q) : Qrate a == a * (1 # 1200).
Proof. unfold Qrate. field. Qed.

Lemma Qrate_pos (a : Q) : 0 < a -> 0 < Qrate a.
Proof. rewrite Qrate_scale. lra. Qed.

Lemma Qrate_nonneg (a : Q) : 0 <= a -> 0 <= Qrate a.
Proof. rewrite Qrate_scale. lra. Qed.

Lemma Qrate_zero (a : Q) : a == 0 -> Qrate a == 0.
Proof. rewrite Qrate_scale. lra. Qed.

Lemma Qgrowth_ge_1 (a : Q) (e : Z) : 0 <= a -> (0 <= e)%Z -> 1 <= Qgrowth a e.
Proof.
  intros Ha He. apply Qpower_1_le; [| exact He].
  pose proof (Qrate_nonneg a Ha). lra.
Qed.

Lemma Qgrowth_zero_rate (a : Q) (e : Z) : a == 0 -> Qgrowth a e == 1.
Proof.
  intros Ha. unfold Qgrowth.
  assert (E : 1 + Qrate a == 1) by (pose proof (Qrate_zero a Ha); lra).
  rewrite E. apply Qpower_1.
Qed.

Lemma Qannuity_geometric (a : Q) (e : Z) :
  0 < a -> (0 <= e)%Z -> Qannuity a e == geometric (1 + Qrate a) (Z.to_nat e).
Proof.
  intros Ha He. pose proof (Qrate_pos a Ha) as Hr.
  unfold Qannuity, Qgrowth. rewrite <- (Z2Nat.id e He) at 1.
  rewrite <- geometric_closed. field. lra.
Qed.

Lemma Qannuity_ge_months (a : Q) (e : Z) :
  0 < a -> (0 <= e)%Z -> inject_Z e <= Qannuity a e.
Proof.
  intros Ha He. rewrite Qannuity_geometric by assumption.
  rewrite <- (Z2Nat.id e He) at 1. apply geometric_ge_count.
  pose proof (Qrate_pos a Ha). lra.
Qed.

Lemma Qannuity_pos (a : Q) (e : Z) : 0 < a -> (0 < e)%Z -> 0 < Qannuity a e.
Proof.
  intros Ha He. apply Qlt_le_trans with (inject_Z e).
  - change 0 with (inject_Z 0). rewrite <- Zlt_Qlt. exact He.
  - apply Qannuity_ge_months; [exact Ha | lia].
Qed.

(** ** From numbers to rationals *)

Lemma mul_NaN_r (m : number) : Num.mul m NaN = NaN.
Proof. destruct m; reflexivity. Qed.

Lemma add_NaN_r (m : number) : Num.add m NaN = NaN.
Proof. destruct m; reflexivity. Qed.

Lemma compounded_Fin (P a : Q) (e : Z) :
  (0 < e)%Z -> compounded (Fin P) (monthlyRate a) e = Fin (P * Qgrowth a e).
Proof.
  intros He. unfold compounded. rewrite monthlyRate_Fin. cbn [Num.add Num.one].
  rewrite pow_Fin by exact He. reflexivity.
Qed.

Lemma annuityFactor_Fin (a : Q) (e : Z) :
  0 < a -> (0 < e)%Z -> annuityFactor (monthlyRate a) e = Fin (Qannuity a e).
Proof.
  intros Ha He. unfold annuityFactor. rewrite monthlyRate_Fin. cbn [Num.add Num.one].
  rewrite pow_Fin by exact He. unfold Num.sub, Num.one. cbn [Num.neg Num.add].
  rewrite div_Fin; [reflexivity |].
  pose proof (Qrate_pos a Ha) as Hr. unfold Qrate in Hr. lra.
Qed.

Lemma annuityFactor_zero_rate (a : Q) (e : Z) :
  a == 0 -> (0 < e)%Z -> annuityFactor (monthlyRate a) e = NaN.
Proof.
  intros Ha He. unfold annuityFactor. rewrite monthlyRate_Fin. cbn [Num.add Num.one].
  rewrite pow_Fin by exact He. unfold Num.sub, Num.one. cbn [Num.neg Num.add].
  apply div_zero_by_zero.
  - pose proof (Qgrowth_zero_rate a e Ha) as Hg. unfold Qgrowth, Qrate in Hg. lra.
  - apply (Qrate_zero a Ha).
Qed.

Lemma remaining_Fin (T P a : Q) (e : Z) :
  (0 < e)%Z ->
  Num.sub (Fin T) (compounded (Fin P) (monthlyRate a) e) = Fin (T - P * Qgrowth a e).
Proof.
  intros He. now rewrite compounded_Fin.
Qed.

Lemma requiredPayment_Fin (T P a : Q) (e : Z) :
  0 < a -> (0 < e)%Z ->
  requiredPayment (Fin T) (Fin P) (monthlyRate a) e = Fin (Qpayment T P a e).
Proof.
  intros Ha He. unfold requiredPayment, Qpayment.
  rewrite remaining_Fin, annuityFactor_Fin by assumption. cbv zeta.
  destruct (Qlt_le_dec 0 (T - P * Qgrowth a e)) as [Hrem | Hrem].
  - apply gtb_Fin in Hrem. unfold Num.zero. rewrite Hrem.
    apply div_Fin. pose proof (Qannuity_pos a e Ha He). lra.
  - apply gtb_Fin_false in Hrem. unfold Num.zero. now rewrite Hrem.
Qed.

Lemma requiredPayment_covered (T P a : Q) (e : Z) :
  (0 < e)%Z -> T - P * Qgrowth a e <= 0 ->
  requiredPayment (Fin T) (Fin P) (monthlyRate a) e = Fin 0.
Proof.
  intros He Hrem. unfold requiredPayment. rewrite remaining_Fin by exact He. cbv zeta.
  apply gtb_Fin_false in Hrem. unfold Num.zero. now rewrite Hrem.
Qed.

Lemma requiredPayment_zero_rate (T P a : Q) (e : Z) :
  a == 0 -> (0 < e)%Z -> 0 < T - P ->
  requiredPayment (Fin T) (Fin P) (monthlyRate a) e = NaN.
Proof.
  intros Ha He Hgap. unfold requiredPayment.
  rewrite remaining_Fin, annuityFactor_zero_rate by assumption. cbv zeta.
  assert (Hrem : Num.gtb (Fin (T - P * Qgrowth a e)) Num.zero = true).
  { apply gtb_Fin. pose proof (Qgrowth_zero_rate a e Ha). nra. }
  now rewrite Hrem.
Qed.

Lemma Qpayment_open (T P a : Q) (e : Z) :
  0 < T - P * Qgrowth a e ->
  Qpayment T P a e = (T - P * Qgrowth a e) / Qannuity a e.
Proof.
  intros Hrem. unfold Qpayment. cbv zeta.
  destruct (Qlt_le_dec 0 (T - P * Qgrowth a e)) as [_ | Hle]; [reflexivity | lra].
Qed.

Lemma Qpayment_covered (T P a : Q) (e : Z) :
  T - P * Qgrowth a e <= 0 -> Qpayment T P a e = 0.
Proof.
  intros Hrem. unfold Qpayment. cbv zeta.
  destruct (Qlt_le_dec 0 (T - P * Qgrowth a e)) as [Hlt | _]; [lra | reflexivity].
Qed.

(** The payment at a positive rate over a positive number of months. *)
Section Payment.

Variables (T P a : Q) (e : Z).
Hypothesis rate_pos : 0 < a.
Hypothesis months_pos : (0 < e)%Z.

Let annuity_pos : 0 < Qannuity a e := Qannuity_pos a e rate_pos months_pos.

Lemma Qpayment_nonneg : 0 <= Qpayment T P a e.
Proof.
  destruct (Qlt_le_dec 0 (T - P * Qgrowth a e)) as [Hrem | Hrem].
  - rewrite Qpayment_open by exact Hrem.
    apply Qlt_le_weak, Qlt_shift_div_l; [exact annuity_pos | lra].
  - rewrite Qpayment_covered by exact Hrem. apply Qle_refl.
Qed.

Lemma Qpayment_pos : 0 < T - P * Qgrowth a e -> 0 < Qpayment T P a e.
Proof.
  intros Hrem. rewrite Qpayment_open by exact Hrem.
  apply Qlt_shift_div_l; [exact annuity_pos | lra].
Qed.

Lemma Qpayment_times_annuity :
  0 < T - P * Qgrowth a e ->
  Qpayment T P a e * Qannuity a e == T - P * Qgrowth a e.
Proof.
  intros Hrem. rewrite Qpayment_open by exact Hrem.
  pose proof annuity_pos. field. lra.
Qed.

(** When a payment is due, the payments and the compounded capital add up
    to the target exactly. *)
Lemma Qpayment_closes_gap :
  0 < T - P * Qgrowth a e -> Qvalue P (Qpayment T P a e) a e == T.
Proof.
  intros Hrem. unfold Qvalue. rewrite Qpayment_open by exact Hrem.
  pose proof annuity_pos. field. lra.
Qed.

End Payment.

Lemma yearRecord_Fin (a m P : Q) (k : Z) :
  0 < a -> (0 < k)%Z ->
  App.yearRecord (monthlyRate a) (Fin m) (Fin P) k
  = {| YearRecord.year := k;
       YearRecord.totalValue := Fin (Qvalue P m a (k * 12));
       YearRecord.totalInvested := Fin (m * inject_Z (k * 12));
       YearRecord.initialCapital := Fin P;
       YearRecord.profit := Fin (Qvalue P m a (k * 12) - m * inject_Z (k * 12) - P) |}.
Proof.
  intros Ha Hk. unfold App.yearRecord. cbv zeta.
  fold (compounded (Fin P) (monthlyRate a) (k * 12)).
  fold (annuityFactor (monthlyRate a) (k * 12)).
  rewrite compounded_Fin, annuityFactor_Fin by (assumption || lia).
  reflexivity.
Qed.

Lemma yearRecord_zero_rate (a : Q) (m P : number) (k : Z) :
  a == 0 -> (0 < k)%Z ->
  YearRecord.totalValue (App.yearRecord (monthlyRate a) m P k) = NaN.
Proof.
  intros Ha Hk. unfold App.yearRecord. cbv zeta. cbn [YearRecord.totalValue].
  fold (annuityFactor (monthlyRate a) (k * 12)).
  rewrite annuityFactor_zero_rate by (assumption || lia).
  now rewrite mul_NaN_r, add_NaN_r.
Qed.

Lemma countFrom_In (n : nat) :
  forall (start k : Z), In k (countFrom start n) -> (start <= k < start + Z.of_nat n)%Z.
Proof.
  induction n as [| n IH]; intros start k Hin; [contradiction |].
  destruct Hin as [<- | Hin]; [lia |]. apply IH in Hin. lia.
Qed.

(** The result of a valid call, with the loop unrolled. *)
Lemma project_valid (y : Z) (T a P : Q) :
  valid y T a P ->
  project y T a P =
  Some {| CalculationResult.monthlyInvestment :=
            requiredPayment (Fin T) (Fin P) (monthlyRate a) (y * 12);
          CalculationResult.totalInvested :=
            Num.mul (requiredPayment (Fin T) (Fin P) (monthlyRate a) (y * 12))
                    (Num.of_Z (y * 12));
          CalculationResult.initialCapital := Fin P;
          CalculationResult.totalProfit :=
            Num.sub (Num.sub (Fin T)
                       (Num.mul (requiredPayment (Fin T) (Fin P) (monthlyRate a) (y * 12))
                                (Num.of_Z (y * 12))))
                    (Fin P);
          CalculationResult.yearlyBreakdown :=
            map (App.yearRecord (monthlyRate a)
                   (requiredPayment (Fin T) (Fin P) (monthlyRate a) (y * 12)) (Fin P))
                (countFrom 1 (Z.to_nat y)) |}.
Proof.
  intros Hv. rewrite project_unfold.
  apply valid_not_invalid in Hv. rewrite Hv. cbv zeta.
  rewrite yearLoop_countFrom by lia.
  replace (Z.to_nat (y - 1 + 1)) with (Z.to_nat y) by lia.
  reflexivity.
Qed.

(** With a positive rate every output is a finite number, given by the
    formulas over the rationals. *)
Lemma project_positive_rate (y : Z) (T a P : Q) :
  valid y T a P -> 0 < a ->
  project y T a P =
  Some {| CalculationResult.monthlyInvestment := Fin (Qpayment T P a (y * 12));
          CalculationResult.totalInvested :=
            Fin (Qpayment T P a (y * 12) * inject_Z (y * 12));
          CalculationResult.initialCapital := Fin P;
          CalculationResult.totalProfit :=
            Fin (T - Qpayment T P a (y * 12) * inject_Z (y * 12) - P);
          CalculationResult.yearlyBreakdown :=
            map (fun k =>
                   {| YearRecord.year := k;
                      YearRecord.totalValue := Fin (Qvalue P (Qpayment T P a (y * 12)) a (k * 12));
                      YearRecord.totalInvested := Fin (Qpayment T P a (y * 12) * inject_Z (k * 12));
                      YearRecord.initialCapital := Fin P;
                      YearRecord.profit :=
                        Fin (Qvalue P (Qpayment T P a (y * 12)) a (k * 12)
                             - Qpayment T P a (y * 12) * inject_Z (k * 12) - P) |})
                (countFrom 1 (Z.to_nat y)) |}.
Proof.
  intros Hv Ha. rewrite (project_valid _ _ _ _ Hv).
  destruct Hv as (Hy & _).
  rewrite requiredPayment_Fin by (assumption || lia).
  do 2 f_equal. apply map_ext_in. intros k Hk.
  apply countFrom_In in Hk. apply yearRecord_Fin; [exact Ha | lia].
Qed.

(** ** The call as a state transition *)

Lemma calculateInvestment_project (st : App.state) :
  App.calculateInvestment st
  = App.setResult
      (project (App.years st) (App.targetAmount st) (App.annualReturn st)
               (App.initialCapital st))
      st.
Proof.
  unfold project, App.calculateInvestment.
  cbn [App.years App.targetAmount App.annualReturn App.initialCapital].
  destruct (_ || _ || _ || _); reflexivity.
Qed.

(** X6: [calculateInvestment] leaves the four inputs as they were, stores a
    result that depends on them only, and running it again changes nothing. *)
Theorem calculateInvestment_writes_result_only (st : App.state) :
  App.years (App.calculateInvestment st) = App.years st
  /\ App.targetAmount (App.calculateInvestment st) = App.targetAmount st
  /\ App.annualReturn (App.calculateInvestment st) = App.annualReturn st
  /\ App.initialCapital (App.calculateInvestment st) = App.initialCapital st
  /\ App.result (App.calculateInvestment st)
     = project (App.years st) (App.targetAmount st) (App.annualReturn st)
               (App.initialCapital st)
  /\ App.calculateInvestment (App.calculateInvestment st) = App.calculateInvestment st.
Proof.
  rewrite (calculateInvestment_project (App.calculateInvestment st)).
  rewrite (calculateInvestment_project st).
  repeat split.
Qed.

Lemma project_None_iff (y : Z) (T a P : Q) :
  project y T a P = None <-> ((y <= 0)%Z \/ T <= 0 \/ a < 0 \/ P < 0).
Proof.
  rewrite <- invalid_true_iff, project_unfold.
  destruct (invalid y T a P); cbv zeta; split; intros H; congruence.
Qed.

(** C3: [project] gives no result exactly when [years <= 0], or
    [targetAmount <= 0], or [annualReturnPercent < 0], or
    [initialCapital < 0], and gives a result for every other input; in
    particular [years = 0], [targetAmount = 0], [annualReturnPercent = -1] and
    [initialCapital = -1] each give no result.  On that path the call leaves
    the state as it was but for the result cell, which is cleared. *)
Theorem C3_invalid_inputs_give_no_result
    (y : Z) (T a P : Q) (prev : option CalculationResult.t) :
  (project y T a P = None <-> ((y <= 0)%Z \/ T <= 0 \/ a < 0 \/ P < 0))
  /\ ((exists res, project y T a P = Some res)
      <-> ~ ((y <= 0)%Z \/ T <= 0 \/ a < 0 \/ P < 0))
  /\ project 0 T a P = None
  /\ project y 0 a P = None
  /\ project y T (-1) P = None
  /\ project y T a (-1) = None
  /\ (project y T a P = None
      <-> App.calculateInvestment (App.mkState y T a P prev) = App.mkState y T a P None).
Proof.
  split; [apply project_None_iff |].
  split.
  { rewrite <- project_None_iff. destruct (project y T a P) as [res |].
    - split; [intros _; discriminate | intros _; now exists res].
    - split; [intros [res H]; discriminate | intros H; now contradiction H]. }
  split; [apply project_None_iff; left; lia |].
  split; [apply project_None_iff; right; left; apply Qle_refl |].
  split; [apply project_None_iff; right; right; left; reflexivity |].
  split; [apply project_None_iff; right; right; right; reflexivity |].
  rewrite calculateInvestment_project. unfold App.setResult.
  cbn [App.years App.targetAmount App.annualReturn App.initialCapital].
  split.
  - intros ->. reflexivity.
  - intros H. now injection H.
Qed.

(** ** The yearly breakdown *)

(** C8: for every valid input the breakdown has exactly [years] entries; the
    [k]-th entry, for [k] from 1 to [years], has [year = k],
    [totalInvested = monthlyInvestment * (k * 12)] and the input
    [initialCapital]. *)
Theorem C8_breakdown_has_one_record_per_year (y : Z) (T a P : Q) :
  valid y T a P ->
  exists res,
    project y T a P = Some res
    /\ length (CalculationResult.yearlyBreakdown res) = Z.to_nat y
    /\ forall k : Z,
         (1 <= k <= y)%Z ->
         exists rec,
           nth_error (CalculationResult.yearlyBreakdown res) (Z.to_nat (k - 1)) = Some rec
           /\ YearRecord.year rec = k
           /\ YearRecord.totalInvested rec
              = Num.mul (CalculationResult.monthlyInvestment res) (Num.of_Z (k * 12))
           /\ YearRecord.initialCapital rec = Fin P.
Proof.
  intros Hv. eexists. split; [apply (project_valid _ _ _ _ Hv) |].
  cbn [CalculationResult.yearlyBreakdown CalculationResult.monthlyInvestment].
  split.
  - now rewrite length_map, countFrom_length.
  - intros k Hk. eexists. split.
    + rewrite nth_error_map, countFrom_nth by lia. cbn [option_map].
      replace (1 + Z.of_nat (Z.to_nat (k - 1)))%Z with k by lia. reflexivity.
    + repeat split.
Qed.

Lemma C8_breakdown_has_one_record_per_year_witness :
  valid 2 1000 12 500
  /\ exists res,
    project 2 1000 12 500 = Some res
    /\ length (CalculationResult.yearlyBreakdown res) = Z.to_nat 2
    /\ forall k : Z,
         (1 <= k <= 2)%Z ->
         exists rec,
           nth_error (CalculationResult.yearlyBreakdown res) (Z.to_nat (k - 1)) = Some rec
           /\ YearRecord.year rec = k
           /\ YearRecord.totalInvested rec
              = Num.mul (CalculationResult.monthlyInvestment res) (Num.of_Z (k * 12))
           /\ YearRecord.initialCapital rec = Fin 500.
Proof.
  assert (Hv : valid 2 1000 12 500) by valid_by_computation.
  split; [exact Hv |].
  exact (C8_breakdown_has_one_record_per_year 2 1000 12 500 Hv).
Defined.

(** C9: for every valid input, every record of the breakdown has
    [profit = totalValue - totalInvested - initialCapital], as an identity of
    the values the program computed: the stored [profit] is that very
    difference of the stored [totalValue], [totalInvested] and
    [initialCapital]. *)
Theorem C9_profit_identity (y : Z) (T a P : Q) :
  valid y T a P ->
  exists res,
    project y T a P = Some res
    /\ length (CalculationResult.yearlyBreakdown res) = Z.to_nat y
    /\ forall rec,
         In rec (CalculationResult.yearlyBreakdown res) ->
         YearRecord.profit rec
         = Num.sub (Num.sub (YearRecord.totalValue rec) (YearRecord.totalInvested rec))
                   (YearRecord.initialCapital rec).
Proof.
  intros Hv. eexists. split; [apply (project_valid _ _ _ _ Hv) |].
  cbn [CalculationResult.yearlyBreakdown].
  split; [now rewrite length_map, countFrom_length |].
  intros rec Hin. apply in_map_iff in Hin. destruct Hin as (k & <- & _).
  reflexivity.
Qed.

Lemma C9_profit_identity_witness :
  valid 2 1000 12 500
  /\ exists res,
       project 2 1000 12 500 = Some res
       /\ length (CalculationResult.yearlyBreakdown res) = Z.to_nat 2
       /\ forall rec,
            In rec (CalculationResult.yearlyBreakdown res) ->
            YearRecord.profit rec
            = Num.sub (Num.sub (YearRecord.totalValue rec) (YearRecord.totalInvested rec))
                      (YearRecord.initialCapital rec).
Proof.
  assert (Hv : valid 2 1000 12 500) by valid_by_computation.
  split; [exact Hv |].
  exact (C9_profit_identity 2 1000 12 500 Hv).
Defined.

Lemma breakdown_nth (f : Z -> YearRecord.t) (y k : Z) :
  (1 <= k <= y)%Z ->
  nth_error (map f (countFrom 1 (Z.to_nat y))) (Z.to_nat (k - 1)) = Some (f k).
Proof.
  intros Hk. rewrite nth_error_map, countFrom_nth by lia. cbn [option_map].
  f_equal. f_equal. lia.
Qed.

(** ** A rate of zero: the division by [monthlyRate] *)

Lemma leb_NaN_r (m : number) : Num.leb m NaN = false.
Proof. destruct m; reflexivity. Qed.

Lemma close_to_NaN_l (tol : Q) (v : number) : Num.close_to tol NaN v = false.
Proof. unfold Num.close_to. destruct v; reflexivity. Qed.

(** C1: what the program computes where the claim expects
    [(targetAmount - initialCapital) / totalMonths].  For every valid input
    with [annualReturnPercent = 0] and [targetAmount - initialCapital > 0] the
    annuity denominator is evaluated as [0 / 0], that is [NaN], not as
    [totalMonths], and [monthlyInvestment] is [NaN]: it is equal to no
    number. *)
Theorem C1_zero_rate_payment_is_NaN (y : Z) (T a P : Q) :
  valid y T a P ->
  a == 0 ->
  0 < T - P ->
  exists res,
    project y T a P = Some res
    /\ annuityFactor (monthlyRate a) (y * 12) = NaN
    /\ CalculationResult.monthlyInvestment res = NaN
    /\ Num.eqb (CalculationResult.monthlyInvestment res)
               (Fin ((T - P) / inject_Z (y * 12))) = false.
Proof.
  intros Hv Ha Hgap. pose proof Hv as (Hy & _).
  eexists. split; [apply (project_valid _ _ _ _ Hv) |].
  cbn [CalculationResult.monthlyInvestment].
  rewrite requiredPayment_zero_rate by (assumption || lia).
  repeat split. apply annuityFactor_zero_rate; [exact Ha | lia].
Qed.

Lemma C1_zero_rate_payment_is_NaN_witness :
  valid 10 120000 0 0
  /\ exists res,
       project 10 120000 0 0 = Some res
       /\ annuityFactor (monthlyRate 0) (10 * 12) = NaN
       /\ CalculationResult.monthlyInvestment res = NaN
       /\ Num.eqb (CalculationResult.monthlyInvestment res)
                  (Fin ((120000 - 0) / inject_Z (10 * 12))) = false.
Proof.
  assert (Hv : valid 10 120000 0 0) by valid_by_computation.
  split; [exact Hv |].
  apply (C1_zero_rate_payment_is_NaN 10 120000 0 0 Hv); vm_compute; reflexivity.
Defined.

(** C5: what the program computes at a rate of zero when the capital already
    covers the target.  For every valid input with [annualReturnPercent = 0]
    and [initialCapital * (1 + monthlyRate)^totalMonths >= targetAmount],
    [monthlyInvestment] is 0 as claimed, but the final record's [totalValue]
    is [0 * (0 / 0)] added to the capital, that is [NaN], and
    [totalValue >= targetAmount] is false. *)
Theorem C5_zero_rate_final_value_is_NaN (y : Z) (T a P : Q) :
  valid y T a P ->
  a == 0 ->
  T <= P * (1 + a / 100 / 12) ^ (y * 12) ->
  exists res last,
    project y T a P = Some res
    /\ CalculationResult.monthlyInvestment res = Fin 0
    /\ nth_error (CalculationResult.yearlyBreakdown res) (Z.to_nat (y - 1)) = Some last
    /\ YearRecord.totalValue last = NaN
    /\ Num.geb (YearRecord.totalValue last) (Fin T) = false.
Proof.
  intros Hv Ha Hcov. pose proof Hv as (Hy & _).
  do 2 eexists. split; [apply (project_valid _ _ _ _ Hv) |].
  cbn [CalculationResult.monthlyInvestment CalculationResult.yearlyBreakdown].
  split.
  { apply requiredPayment_covered; [lia |]. unfold Qgrowth, Qrate. lra. }
  split; [apply breakdown_nth; lia |].
  rewrite yearRecord_zero_rate by (assumption || lia).
  split; reflexivity.
Qed.

Lemma C5_zero_rate_final_value_is_NaN_witness :
  valid 1 1000 0 1000
  /\ 1000 <= 1000 * (1 + 0 / 100 / 12) ^ (1 * 12)
  /\ exists res last,
       project 1 1000 0 1000 = Some res
       /\ CalculationResult.monthlyInvestment res = Fin 0
       /\ nth_error (CalculationResult.yearlyBreakdown res) (Z.to_nat (1 - 1)) = Some last
       /\ YearRecord.totalValue last = NaN
       /\ Num.geb (YearRecord.totalValue last) (Fin 1000) = false.
Proof.
  assert (Hv : valid 1 1000 0 1000) by valid_by_computation.
  assert (Hcov : 1000 <= 1000 * (1 + 0 / 100 / 12) ^ (1 * 12)) by (vm_compute; congruence).
  split; [exact Hv |]. split; [exact Hcov |].
  apply (C5_zero_rate_final_value_is_NaN 1 1000 0 1000 Hv); [reflexivity | exact Hcov].
Defined.

(** C6: what the program computes at a rate of zero.  For every valid input
    with [annualReturnPercent = 0] the final record's [totalValue] is [NaN],
    so it is within relative tolerance [1e-6] of no value at all: neither
    of the formula's value at [totalMonths] nor of [targetAmount]. *)
Theorem C6_zero_rate_final_value_matches_nothing (y : Z) (T a P : Q) :
  valid y T a P ->
  a == 0 ->
  exists res last,
    project y T a P = Some res
    /\ nth_error (CalculationResult.yearlyBreakdown res) (Z.to_nat (y - 1)) = Some last
    /\ YearRecord.totalValue last = NaN
    /\ Num.close_to (1 # 1000000) (YearRecord.totalValue last)
         (projectedValue (Fin P) (CalculationResult.monthlyInvestment res)
                         (monthlyRate a) (y * 12)) = false
    /\ Num.close_to (1 # 1000000) (YearRecord.totalValue last) (Fin T) = false.
Proof.
  intros Hv Ha. pose proof Hv as (Hy & _).
  do 2 eexists. split; [apply (project_valid _ _ _ _ Hv) |].
  cbn [CalculationResult.monthlyInvestment CalculationResult.yearlyBreakdown].
  split; [apply breakdown_nth; lia |].
  rewrite yearRecord_zero_rate by (assumption || lia).
  repeat split; apply close_to_NaN_l.
Qed.

Lemma C6_zero_rate_final_value_matches_nothing_witness :
  valid 1 1200 0 0
  /\ exists res last,
       project 1 1200 0 0 = Some res
       /\ nth_error (CalculationResult.yearlyBreakdown res) (Z.to_nat (1 - 1)) = Some last
       /\ YearRecord.totalValue last = NaN
       /\ Num.close_to (1 # 1000000) (YearRecord.totalValue last)
            (projectedValue (Fin 0) (CalculationResult.monthlyInvestment res)
                            (monthlyRate 0) (1 * 12)) = false
       /\ Num.close_to (1 # 1000000) (YearRecord.totalValue last) (Fin 1200) = false.
Proof.
  assert (Hv : valid 1 1200 0 0) by valid_by_computation.
  split; [exact Hv |].
  apply (C6_zero_rate_final_value_matches_nothing 1 1200 0 0 Hv); vm_compute; reflexivity.
Defined.

(** C7: what the program computes when the lower of two rates is zero.  For
    every valid input with [targetAmount > initialCapital], the payment at a
    rate of zero is [NaN], and the comparison "the payment at [a2] is at most
    the payment at zero" is false for every rate [a2]. *)
Theorem C7_zero_rate_breaks_monotonicity (y : Z) (T a1 a2 P : Q) :
  valid y T a1 P ->
  a1 == 0 ->
  a1 <= a2 ->
  0 < T - P ->
  exists res1 res2,
    project y T a1 P = Some res1
    /\ project y T a2 P = Some res2
    /\ Num.leb (CalculationResult.monthlyInvestment res2)
               (CalculationResult.monthlyInvestment res1) = false.
Proof.
  intros Hv Ha1 Ha2 Hgap. pose proof Hv as (Hy & HT & H0 & HP).
  assert (Hv2 : valid y T a2 P) by (unfold valid; repeat split; try assumption; lra).
  do 2 eexists.
  split; [apply (project_valid _ _ _ _ Hv) |].
  split; [apply (project_valid _ _ _ _ Hv2) |].
  cbn [CalculationResult.monthlyInvestment].
  rewrite (requiredPayment_zero_rate T P a1) by (assumption || lia).
  apply leb_NaN_r.
Qed.

Lemma C7_zero_rate_breaks_monotonicity_witness :
  valid 1 1200 0 0
  /\ exists res1 res2,
       project 1 1200 0 0 = Some res1
       /\ project 1 1200 12 0 = Some res2
       /\ Num.leb (CalculationResult.monthlyInvestment res2)
                  (CalculationResult.monthlyInvestment res1) = false.
Proof.
  assert (Hv : valid 1 1200 0 0) by valid_by_computation.
  split; [exact Hv |].
  apply (C7_zero_rate_breaks_monotonicity 1 1200 0 12 0 Hv); vm_compute; congruence.
Defined.

(** C4: what the program computes at a rate of zero where the claim gives
    the payment formula.  For every valid input with
    [annualReturnPercent = 0] and
    [targetAmount - initialCapital * (1 + r)^n > 0], the quotient
    [((1 + r)^n - 1) / r] is [0 / 0]: [monthlyInvestment], [totalInvested]
    and [totalProfit] are all [NaN], equal to no number, where the formula
    with its denominator [n] gives [(targetAmount - initialCapital) / n],
    [targetAmount - initialCapital] and [0]. *)
Theorem C4_zero_rate_fields_are_NaN (y : Z) (T a P : Q) :
  valid y T a P ->
  a == 0 ->
  0 < T - P * (1 + a / 100 / 12) ^ (y * 12) ->
  exists res,
    project y T a P = Some res
    /\ CalculationResult.monthlyInvestment res = NaN
    /\ CalculationResult.totalInvested res = NaN
    /\ CalculationResult.totalProfit res = NaN
    /\ Num.eqb (CalculationResult.monthlyInvestment res)
               (Fin ((T - P) / inject_Z (y * 12))) = false
    /\ Num.eqb (CalculationResult.totalInvested res) (Fin (T - P)) = false
    /\ Num.eqb (CalculationResult.totalProfit res) (Fin 0) = false.
Proof.
  intros Hv Ha Hrem. pose proof Hv as (Hy & _).
  assert (He : (0 < y * 12)%Z) by lia.
  assert (Hgap : 0 < T - P).
  { pose proof (Qgrowth_zero_rate a (y * 12) Ha) as Hg. unfold Qgrowth, Qrate in Hg. nra. }
  eexists. split; [apply (project_valid _ _ _ _ Hv) |].
  cbn [CalculationResult.monthlyInvestment CalculationResult.totalInvested
       CalculationResult.totalProfit].
  rewrite (requiredPayment_zero_rate T P a (y * 12) Ha He Hgap).
  repeat split.
Qed.

Lemma C4_zero_rate_fields_are_NaN_witness :
  valid 10 120000 0 0
  /\ 0 < 120000 - 0 * (1 + 0 / 100 / 12) ^ (10 * 12)
  /\ exists res,
       project 10 120000 0 0 = Some res
       /\ CalculationResult.monthlyInvestment res = NaN
       /\ CalculationResult.totalInvested res = NaN
       /\ CalculationResult.totalProfit res = NaN
       /\ Num.eqb (CalculationResult.monthlyInvestment res)
                  (Fin ((120000 - 0) / inject_Z (10 * 12))) = false
       /\ Num.eqb (CalculationResult.totalInvested res) (Fin (120000 - 0)) = false
       /\ Num.eqb (CalculationResult.totalProfit res) (Fin 0) = false.
Proof.
  assert (Hv : valid 10 120000 0 0) by valid_by_computation.
  assert (Hrem : 0 < 120000 - 0 * (1 + 0 / 100 / 12) ^ (10 * 12)) by (vm_compute; reflexivity).
  split; [exact Hv |]. split; [exact Hrem |].
  exact (C4_zero_rate_fields_are_NaN 10 120000 0 0 Hv (Qeq_refl 0) Hrem).
Defined.

(** ** Projected values and the tolerance test *)



Lemma close_to_Fin_eq (tol u v : Q) :
  0 <= tol -> u == v -> Num.close_to tol (Fin u) (Fin v) = true.
Proof.
  intros Htol Huv. unfold Num.close_to. cbn [Num.sub Num.neg Num.add Num.abs Num.mul].
  apply leb_Fin.
  assert (E : u + - v == 0) by lra.
  rewrite E. change (Qabs 0) with 0.
  pose proof (Qabs_nonneg v). nra.
Qed.

(** ** Signs of the outputs *)


Lemma ltb_zero_Fin_nonneg (q : Q) : 0 <= q -> Num.ltb (Fin q) Num.zero = false.
Proof.
  intros Hq. apply not_true_iff_false. unfold Num.zero. rewrite ltb_Fin. lra.
Qed.

(** The payment is [NaN] or a finite number that is not negative. *)
Lemma requiredPayment_shape (T P a : Q) (e : Z) :
  0 <= a -> (0 < e)%Z ->
  requiredPayment (Fin T) (Fin P) (monthlyRate a) e = NaN
  \/ exists q, requiredPayment (Fin T) (Fin P) (monthlyRate a) e = Fin q /\ 0 <= q.
Proof.
  intros Ha He. apply Qle_lteq in Ha. destruct Ha as [Hpos | Hzero].
  - right. exists (Qpayment T P a e).
    split; [now apply requiredPayment_Fin | now apply Qpayment_nonneg].
  - symmetry in Hzero. destruct (Qlt_le_dec 0 (T - P)) as [Hgap | Hcov].
    + left. now apply requiredPayment_zero_rate.
    + right. exists 0. split; [| apply Qle_refl].
      apply requiredPayment_covered; [exact He |].
      pose proof (Qgrowth_zero_rate a e Hzero). nra.
Qed.



(** ** Two scenarios at a positive rate *)

(** X2: the scenario [years = 10], [targetAmount = 200000],
    [annualReturnPercent = 8], [initialCapital = 200000]: no payment, and the
    tenth record's [totalValue] is above the target. *)
Theorem scenario_capital_already_sufficient :
  exists res last,
    project 10 200000 8 200000 = Some res
    /\ CalculationResult.monthlyInvestment res = Fin 0
    /\ nth_error (CalculationResult.yearlyBreakdown res) 9 = Some last
    /\ Num.gtb (YearRecord.totalValue last) (Fin 200000) = true.
Proof.
  assert (Hv : valid 10 200000 8 200000) by valid_by_computation.
  assert (Ha : 0 < 8) by reflexivity.
  assert (Hrem : 200000 - 200000 * Qgrowth 8 (10 * 12) < 0) by (vm_compute; reflexivity).
  do 2 eexists. split; [apply (project_positive_rate _ _ _ _ Hv Ha) |].
  cbn [CalculationResult.monthlyInvestment CalculationResult.yearlyBreakdown].
  rewrite (Qpayment_covered 200000 200000 8 (10 * 12) (Qlt_le_weak _ _ Hrem)).
  split; [reflexivity |].
  split; [apply (breakdown_nth _ 10 10); lia |].
  cbn [YearRecord.totalValue]. apply gtb_Fin. unfold Qvalue. lra.
Qed.

(** X4: the scenario [years = 20], [targetAmount = 1000000],
    [annualReturnPercent = 10], [initialCapital = 100000]: a positive payment
    which, run forward 240 months, gives back the target. *)
Theorem scenario_default_inputs :
  exists res last,
    project 20 1000000 10 100000 = Some res
    /\ Num.gtb (CalculationResult.monthlyInvestment res) Num.zero = true
    /\ nth_error (CalculationResult.yearlyBreakdown res) 19 = Some last
    /\ Num.eqb (YearRecord.totalValue last) (Fin 1000000) = true
    /\ Num.close_to (1 # 1000000) (YearRecord.totalValue last) (Fin 1000000) = true.
Proof.
  assert (Hv : valid 20 1000000 10 100000) by valid_by_computation.
  assert (Ha : 0 < 10) by reflexivity.
  assert (He : (0 < 20 * 12)%Z) by lia.
  assert (Hrem : 0 < 1000000 - 100000 * Qgrowth 10 (20 * 12)) by (vm_compute; reflexivity).
  pose proof (Qpayment_closes_gap 1000000 100000 10 (20 * 12) Ha He Hrem) as Hclose.
  do 2 eexists. split; [apply (project_positive_rate _ _ _ _ Hv Ha) |].
  cbn [CalculationResult.monthlyInvestment CalculationResult.yearlyBreakdown].
  split; [apply gtb_Fin, Qpayment_pos; assumption |].
  split; [apply (breakdown_nth _ 20 20); lia |].
  cbn [YearRecord.totalValue].
  split; [apply eqb_Fin; exact Hclose | apply close_to_Fin_eq; [discriminate | exact Hclose]].
Qed.

(** ** The whole breakdown at a rate of zero *)

(** X7: at a rate of zero every record of the breakdown carries [NaN] as its
    [totalValue] and as its [profit], whatever the other inputs. *)
Theorem zero_rate_records_are_NaN (y : Z) (T a P : Q) :
  valid y T a P ->
  a == 0 ->
  exists res,
    project y T a P = Some res
    /\ length (CalculationResult.yearlyBreakdown res) = Z.to_nat y
    /\ forall rec,
         In rec (CalculationResult.yearlyBreakdown res) ->
         YearRecord.totalValue rec = NaN /\ YearRecord.profit rec = NaN.
Proof.
  intros Hv Ha.
  eexists. split; [apply (project_valid _ _ _ _ Hv) |].
  cbn [CalculationResult.yearlyBreakdown].
  split; [now rewrite length_map, countFrom_length |].
  intros rec Hin. apply in_map_iff in Hin. destruct Hin as (k & <- & Hk).
  apply countFrom_In in Hk.
  assert (Hvalue : YearRecord.totalValue
                     (App.yearRecord (monthlyRate a)
                        (requiredPayment (Fin T) (Fin P) (monthlyRate a) (y * 12)) (Fin P) k)
                   = NaN)
    by (apply yearRecord_zero_rate; [exact Ha | lia]).
  split; [exact Hvalue |].
  unfold App.yearRecord in *. cbv zeta in *.
  cbn [YearRecord.totalValue YearRecord.profit] in *.
  rewrite Hvalue. reflexivity.
Qed.

Lemma zero_rate_records_are_NaN_witness :
  valid 2 1000 0 500
  /\ exists res,
       project 2 1000 0 500 = Some res
       /\ length (CalculationResult.yearlyBreakdown res) = Z.to_nat 2
       /\ forall rec,
            In rec (CalculationResult.yearlyBreakdown res) ->
            YearRecord.totalValue rec = NaN /\ YearRecord.profit rec = NaN.
Proof.
  assert (Hv : valid 2 1000 0 500) by valid_by_computation.
  split; [exact Hv |].
  exact (zero_rate_records_are_NaN 2 1000 0 500 Hv (Qeq_refl 0)).
Defined.

(** ** Termination of the yearly loop *)

(** X8: the yearly loop stops because its test fails, after [years] rounds:
    with any bound of at least [years] iterations it returns the records of
    the years 1 to [years], in order. *)
Theorem yearLoop_terminates (body : Z -> YearRecord.t) (years : Z) (fuel : nat) :
  (Z.to_nat years <= fuel)%nat ->
  App.yearLoop fuel body years 1 [] = map body (countFrom 1 (Z.to_nat years))
  /\ App.yearLoop fuel body years 1 [] = App.yearLoop (Z.to_nat years) body years 1 [].
Proof.
  intros Hfuel. split.
  - rewrite yearLoop_countFrom by lia.
    now replace (Z.to_nat (years - 1 + 1)) with (Z.to_nat years) by lia.
  - now apply yearLoop_fuel_irrelevant.
Qed.

Lemma yearLoop_terminates_witness :
  (Z.to_nat 2 <= 5)%nat
  /\ App.yearLoop 5 (App.yearRecord (monthlyRate 12) (Fin 10) (Fin 500)) 2 1 []
     = map (App.yearRecord (monthlyRate 12) (Fin 10) (Fin 500)) (countFrom 1 (Z.to_nat 2))
  /\ App.yearLoop 5 (App.yearRecord (monthlyRate 12) (Fin 10) (Fin 500)) 2 1 []
     = App.yearLoop (Z.to_nat 2) (App.yearRecord (monthlyRate 12) (Fin 10) (Fin 500)) 2 1 [].
Proof.
  assert (Hfuel : (Z.to_nat 2 <= 5)%nat) by (simpl; lia).
  split; [exact Hfuel |].
  exact (yearLoop_terminates (App.yearRecord (monthlyRate 12) (Fin 10) (Fin 500)) 2 5 Hfuel).
Defined.

(** ** The number fields *)

Lemma max_Fin (x y : Q) : Num.max (Fin x) (Fin y) = Fin (Qmax x y).
Proof.
  unfold Num.max, Qmax, GenericMinMax.gmax. cbn [Num.ltb].
  destruct (x ?= y); reflexivity.
Qed.

Lemma min_Fin (x y : Q) : Num.min (Fin x) (Fin y) = Fin (Qmin x y).
Proof.
  unfold Num.min, Qmin, GenericMinMax.gmin. cbn [Num.ltb].
  rewrite <- (Qcompare_antisym x y). destruct (x ?= y); reflexivity.
Qed.

Lemma clampQ_range (hi v : Q) :
  0 <= hi -> 0 <= Session.clampQ hi v /\ Session.clampQ hi v <= hi.
Proof.
  intros Hhi. unfold Session.clampQ.
  destruct (Q.max_spec v 0) as [[H1 E1] | [H1 E1]];
    destruct (Q.min_spec (Qmax v 0) hi) as [[H2 E2] | [H2 E2]];
    split; lra.
Qed.

Lemma clampQ_kept (hi v : Q) : 0 <= v -> v <= hi -> Session.clampQ hi v = v.
Proof.
  intros H0 Hhi. unfold Session.clampQ, Qmin, Qmax, GenericMinMax.gmin, GenericMinMax.gmax.
  destruct (Qcompare_spec v 0) as [_ | Hlt | _]; [| lra |];
    (destruct (Qcompare_spec v hi) as [_ | _ | Hgt]; [reflexivity | reflexivity | lra]).
Qed.

Lemma clamp_Fin (hi x : Q) : Field.clamp hi (Some (Fin x)) = Fin (Session.clampQ hi x).
Proof.
  unfold Field.clamp, Session.clampQ, Field.numValue, Num.zero.
  now rewrite max_Fin, min_Fin.
Qed.

Lemma clamp_empty (hi : Q) : Field.clamp hi None = Fin (Session.clampQ hi 0).
Proof.
  unfold Field.clamp, Session.clampQ, Field.numValue, Num.zero.
  now rewrite max_Fin, min_Fin.
Qed.

Lemma clamp_PInf (hi : Q) : Field.clamp hi (Some PInf) = Fin hi.
Proof. reflexivity. Qed.

Lemma clamp_NInf (hi : Q) : 0 <= hi -> Field.clamp hi (Some NInf) = Fin 0.
Proof.
  intros Hhi. unfold Field.clamp, Field.numValue, Num.zero. cbn [Num.max Num.ltb].
  rewrite min_Fin. unfold Qmin, GenericMinMax.gmin.
  destruct (Qcompare_spec 0 hi) as [_ | _ | Hlt]; [reflexivity | reflexivity | lra].
Qed.

(** X9: what a field stores.  For a bound [hi >= 0]: the empty field stores
    0; every text that parses to a number other than [NaN], the infinities
    included, stores a finite number between 0 and [hi]; a number already in
    that range is stored as it is; a stored value typed again is stored
    unchanged; and [NaN] alone passes through the clamp. *)
Theorem field_clamp_range (hi : Q) :
  0 <= hi ->
  Field.clamp hi None = Fin 0
  /\ (forall n, n <> NaN ->
        exists q, Field.clamp hi (Some n) = Fin q /\ 0 <= q /\ q <= hi)
  /\ (forall x, 0 <= x -> x <= hi -> Field.clamp hi (Some (Fin x)) = Fin x)
  /\ (forall value, Field.clamp hi (Some (Field.clamp hi value)) = Field.clamp hi value)
  /\ Field.clamp hi (Some NaN) = NaN.
Proof.
  intros Hhi.
  assert (Hfin : forall n, n <> NaN ->
            exists q, Field.clamp hi (Some n) = Fin q /\ 0 <= q /\ q <= hi).
  { intros [x | | |] Hn.
    - exists (Session.clampQ hi x). split; [apply clamp_Fin | now apply clampQ_range].
    - exists hi. split; [apply clamp_PInf | lra].
    - exists 0. split; [now apply clamp_NInf | lra].
    - contradiction. }
  assert (Hkept : forall x, 0 <= x -> x <= hi -> Field.clamp hi (Some (Fin x)) = Fin x).
  { intros x H0 Hx. rewrite clamp_Fin. f_equal. now apply clampQ_kept. }
  assert (Hempty : Field.clamp hi None = Fin 0).
  { rewrite clamp_empty. f_equal. apply clampQ_kept; lra. }
  split; [exact Hempty |].
  split; [exact Hfin |].
  split; [exact Hkept |].
  split; [| reflexivity].
  intros [n |].
  - destruct n as [x | | |]; try reflexivity.
    + destruct (Hfin (Fin x)) as (q & E & Hq); [discriminate |].
      rewrite E. apply Hkept; tauto.
    + rewrite clamp_PInf. apply Hkept; lra.
    + rewrite clamp_NInf by exact Hhi. apply Hkept; lra.
  - rewrite Hempty. apply Hkept; lra.
Qed.

Lemma field_clamp_range_witness :
  0 <= 50
  /\ Field.clamp 50 None = Fin 0
  /\ (forall n, n <> NaN ->
        exists q, Field.clamp 50 (Some n) = Fin q /\ 0 <= q /\ q <= 50)
  /\ (forall x, 0 <= x -> x <= 50 -> Field.clamp 50 (Some (Fin x)) = Fin x)
  /\ (forall value, Field.clamp 50 (Some (Field.clamp 50 value)) = Field.clamp 50 value)
  /\ Field.clamp 50 (Some NaN) = NaN.
Proof.
  assert (Hhi : 0 <= 50) by (vm_compute; congruence).
  split; [exact Hhi |].
  exact (field_clamp_range 50 Hhi).
Defined.

Lemma Qcompare_inject_Z (a b : Z) : (inject_Z a ?= inject_Z b) = (a ?= b)%Z.
Proof.
  unfold Qcompare, inject_Z. cbn [Qnum Qden]. now rewrite !Z.mul_1_r.
Qed.

Lemma clampQ_inject_Z (hi v : Z) :
  Session.clampQ (inject_Z hi) (inject_Z v) = inject_Z (Session.clampZ hi v).
Proof.
  unfold Session.clampQ, Session.clampZ, Qmin, Qmax, GenericMinMax.gmin, GenericMinMax.gmax.
  unfold Z.min, Z.max. change 0 with (inject_Z 0).
  rewrite Qcompare_inject_Z.
  destruct (v ?= 0)%Z; rewrite Qcompare_inject_Z;
    match goal with |- context [(?x ?= hi)%Z] => destruct (x ?= hi)%Z end; reflexivity.
Qed.

(** X10: the four handlers on finite and on whole numbers.  A finite number
    typed in a money or rate field is stored as [min (max v 0) hi] with the
    field's own bound (10000000, 50000000, 30), and a whole number typed in
    the years field is stored as a whole number, [min (max z 0) 50]; the
    empty field counts as 0. *)
Theorem field_handlers_on_finite_values (q : option Q) (z : option Z) :
  Field.initialCapital (option_map Fin q) = Fin (Session.clampQ 10000000 (Session.valueQ q))
  /\ Field.targetAmount (option_map Fin q) = Fin (Session.clampQ 50000000 (Session.valueQ q))
  /\ Field.annualReturn (option_map Fin q) = Fin (Session.clampQ 30 (Session.valueQ q))
  /\ Field.years (option_map Num.of_Z z) = Num.of_Z (Session.clampZ 50 (Session.valueZ z)).
Proof.
  unfold Field.initialCapital, Field.targetAmount, Field.annualReturn, Field.years.
  repeat split.
  - destruct q; [apply clamp_Fin | apply clamp_empty].
  - destruct q; [apply clamp_Fin | apply clamp_empty].
  - destruct q; [apply clamp_Fin | apply clamp_empty].
  - unfold Num.of_Z. rewrite <- (clampQ_inject_Z 50).
    destruct z as [v |]; [apply clamp_Fin | apply clamp_empty].
Qed.

(** ** The guard behind the fields *)

Lemma clamp_shape (hi : Q) (value : option number) :
  0 <= hi ->
  Field.clamp hi value = NaN
  \/ exists q, Field.clamp hi value = Fin q /\ 0 <= q /\ q <= hi.
Proof.
  intros Hhi. destruct value as [[x | | |] |].
  - right. exists (Session.clampQ hi x). split; [apply clamp_Fin | now apply clampQ_range].
  - right. exists hi. split; [apply clamp_PInf | lra].
  - right. exists 0. split; [now apply clamp_NInf | lra].
  - left. reflexivity.
  - right. exists (Session.clampQ hi 0). split; [apply clamp_empty | now apply clampQ_range].
Qed.

Lemma clamp_ltb_zero (hi : Q) (value : option number) :
  0 <= hi -> Num.ltb (Field.clamp hi value) Num.zero = false.
Proof.
  intros Hhi. destruct (clamp_shape hi value Hhi) as [-> | (q & -> & Hq & _)];
    [reflexivity | now apply ltb_zero_Fin_nonneg].
Qed.

Lemma clamp_leb_zero (hi : Q) (value : option number) :
  0 <= hi ->
  Num.leb (Field.clamp hi value) Num.zero = Num.eqb (Field.clamp hi value) Num.zero.
Proof.
  intros Hhi. unfold Num.leb. now rewrite clamp_ltb_zero.
Qed.

Lemma guard_project (y : Z) (T a P : Q) :
  Field.guard (Fin (inject_Z y)) (Fin T) (Fin a) (Fin P) = true
  <-> project y T a P = None.
Proof.
  rewrite project_None_iff. unfold Field.guard, Num.zero.
  rewrite !orb_true_iff, !leb_Fin, !ltb_Fin.
  change 0 with (inject_Z 0) at 1. rewrite <- Zle_Qle. tauto.
Qed.

(** X12: the guard behind the fields.  Whatever is typed in the four fields,
    whole or not, the values they store never trip the tests
    [annualReturn < 0] and [initialCapital < 0], and the guard of
    [calculateInvestment] fires exactly when the stored years or the stored
    target is 0.  On a whole number of years and finite amounts that guard
    is the test of [project], and for a whole number of years typed the
    stored values give no result exactly when the years or the target are
    0. *)
Theorem fields_leave_two_guards
    (years targetAmount annualReturn initialCapital : option number)
    (z : option Z) (qT qa qP : option Q) :
  Num.ltb (Field.annualReturn annualReturn) Num.zero = false
  /\ Num.ltb (Field.initialCapital initialCapital) Num.zero = false
  /\ Field.guard (Field.years years) (Field.targetAmount targetAmount)
                 (Field.annualReturn annualReturn) (Field.initialCapital initialCapital)
     = Num.eqb (Field.years years) Num.zero
       || Num.eqb (Field.targetAmount targetAmount) Num.zero
  /\ (forall (y : Z) (T a P : Q),
        Field.guard (Fin (inject_Z y)) (Fin T) (Fin a) (Fin P) = true
        <-> project y T a P = None)
  /\ (project (Session.clampZ 50 (Session.valueZ z))
              (Session.clampQ 50000000 (Session.valueQ qT))
              (Session.clampQ 30 (Session.valueQ qa))
              (Session.clampQ 10000000 (Session.valueQ qP)) = None
      <-> (Session.clampZ 50 (Session.valueZ z) = 0%Z
           \/ Session.clampQ 50000000 (Session.valueQ qT) == 0)).
Proof.
  assert (H50 : 0 <= 50) by discriminate.
  assert (HT : 0 <= 50000000) by discriminate.
  assert (Ha : 0 <= 30) by discriminate.
  assert (HP : 0 <= 10000000) by discriminate.
  unfold Field.guard, Field.years, Field.targetAmount, Field.annualReturn, Field.initialCapital.
  rewrite !clamp_ltb_zero, !clamp_leb_zero by assumption.
  split; [reflexivity |]. split; [reflexivity |].
  split; [now rewrite !orb_false_r |].
  split; [intros y T a P; apply guard_project |].
  rewrite project_None_iff.
  pose proof (clampQ_range 50000000 (Session.valueQ qT) HT) as (HT0 & _).
  pose proof (clampQ_range 30 (Session.valueQ qa) Ha) as (Ha0 & _).
  pose proof (clampQ_range 10000000 (Session.valueQ qP) HP) as (HP0 & _).
  assert (Hy0 : (0 <= Session.clampZ 50 (Session.valueZ z))%Z) by (unfold Session.clampZ; lia).
  split.
  - intros [H | [H | [H | H]]]; [left; lia | right; lra | lra | lra].
  - intros [H | H]; [left; lia | right; left; lra].
Qed.

(** ** What the cards show *)

Lemma gtb_NaN_l (m : number) : Num.gtb NaN m = false.
Proof. destruct m; reflexivity. Qed.

(** X14: the first card at a rate of zero.  For every valid input with
    [annualReturnPercent = 0] the card is titled "the initial capital is
    sufficient" and shows the amount 0, also when the capital is below the
    target: the computed payment is then [NaN], and [NaN > 0] is false. *)
Theorem card_title_at_zero_rate (y : Z) (T a P : Q) :
  valid y T a P ->
  a == 0 ->
  exists res,
    project y T a P = Some res
    /\ View.cardTitle res = View.CapitalSufficientTitle
    /\ View.cardAmount res = Fin 0
    /\ (P < T -> CalculationResult.monthlyInvestment res = NaN).
Proof.
  intros Hv Ha. pose proof Hv as (Hy & _).
  assert (He : (0 < y * 12)%Z) by lia.
  eexists. split; [apply (project_valid _ _ _ _ Hv) |].
  unfold View.cardTitle, View.cardAmount. cbn [CalculationResult.monthlyInvestment].
  destruct (Qlt_le_dec P T) as [Hgap | Hcov].
  - rewrite (requiredPayment_zero_rate T P a (y * 12) Ha He) by lra.
    rewrite gtb_NaN_l. repeat split.
  - rewrite (requiredPayment_covered T P a (y * 12) He).
    + repeat split. intros Hlt. lra.
    + pose proof (Qgrowth_zero_rate a (y * 12) Ha). nra.
Qed.

Lemma card_title_at_zero_rate_witness :
  valid 10 120000 0 0
  /\ exists res,
       project 10 120000 0 0 = Some res
       /\ View.cardTitle res = View.CapitalSufficientTitle
       /\ View.cardAmount res = Fin 0
       /\ (0 < 120000 -> CalculationResult.monthlyInvestment res = NaN).
Proof.
  assert (Hv : valid 10 120000 0 0) by valid_by_computation.
  split; [exact Hv |].
  exact (card_title_at_zero_rate 10 120000 0 0 Hv (Qeq_refl 0)).
Defined.

(** ** The install banner *)

Section BannerFacts.

Variable Event : Type.

Lemma banner_run_app (pre post : list (InstallPrompt.action Event)) :
  InstallPrompt.run (pre ++ post) = InstallPrompt.runFrom (InstallPrompt.run pre) post.
Proof.
  unfold InstallPrompt.run, InstallPrompt.runFrom. apply fold_left_app.
Qed.

Lemma step_consistent (st : InstallPrompt.state Event) (a : InstallPrompt.action Event) :
  InstallPrompt.consistent st -> InstallPrompt.consistent (InstallPrompt.step st a).
Proof.
  unfold InstallPrompt.consistent. intros Hok.
  destruct a as [e | | [|] |]; cbn [InstallPrompt.step].
  - cbn. discriminate.
  - unfold InstallPrompt.handleInstall_click.
    destruct (InstallPrompt.deferredPrompt st) eqn:E; cbn; [discriminate | now rewrite E].
  - unfold InstallPrompt.handleInstall_resume.
    destruct (InstallPrompt.awaiting st); [exact Hok | cbn; discriminate].
  - unfold InstallPrompt.handleInstall_resume.
    destruct (InstallPrompt.awaiting st); [exact Hok | exact Hok].
  - cbn. discriminate.
Qed.

Lemma runFrom_consistent (events : list (InstallPrompt.action Event)) :
  forall st, InstallPrompt.consistent st -> InstallPrompt.consistent (InstallPrompt.runFrom st events).
Proof.
  induction events as [| a events IH]; intros st Hok; [exact Hok |].
  apply (IH (InstallPrompt.step st a)), step_consistent, Hok.
Qed.

(** Without a new announcement a hidden banner stays hidden. *)
Lemma hidden_stays_hidden (events : list (InstallPrompt.action Event)) :
  forall st,
    forallb (fun a => negb (InstallPrompt.captures a)) events = true ->
    InstallPrompt.showPrompt st = false ->
    InstallPrompt.showPrompt (InstallPrompt.runFrom st events) = false.
Proof.
  induction events as [| a events IH]; intros st Hno Hhid; [exact Hhid |].
  cbn [forallb] in Hno. apply andb_true_iff in Hno. destruct Hno as (Ha & Hno).
  apply (IH (InstallPrompt.step st a) Hno).
  destruct a as [e | | [|] |]; cbn [InstallPrompt.step]; try discriminate Ha.
  - unfold InstallPrompt.handleInstall_click.
    destruct (InstallPrompt.deferredPrompt st); exact Hhid.
  - unfold InstallPrompt.handleInstall_resume.
    destruct (InstallPrompt.awaiting st); [exact Hhid | reflexivity].
  - unfold InstallPrompt.handleInstall_resume.
    destruct (InstallPrompt.awaiting st); exact Hhid.
  - reflexivity.
Qed.

(** Without a new announcement and without an accepted installation the
    captured event stays. *)
Lemma event_stays (events : list (InstallPrompt.action Event)) :
  forall st,
    forallb (fun a => negb (InstallPrompt.captures a)) events = true ->
    forallb (fun a => negb (InstallPrompt.accepts a)) events = true ->
    InstallPrompt.deferredPrompt (InstallPrompt.runFrom st events)
    = InstallPrompt.deferredPrompt st.
Proof.
  induction events as [| a events IH]; intros st Hnc Hna; [reflexivity |].
  cbn [forallb] in Hnc, Hna.
  apply andb_true_iff in Hnc. destruct Hnc as (Hc & Hnc).
  apply andb_true_iff in Hna. destruct Hna as (Ha & Hna).
  cbn [InstallPrompt.runFrom fold_left]. fold (InstallPrompt.runFrom (InstallPrompt.step st a) events).
  rewrite (IH _ Hnc Hna).
  destruct a as [e | | [|] |]; cbn [InstallPrompt.step];
    try discriminate Hc; try discriminate Ha.
  - unfold InstallPrompt.handleInstall_click.
    destruct (InstallPrompt.deferredPrompt st) eqn:E; cbn; congruence.
  - unfold InstallPrompt.handleInstall_resume.
    destruct (InstallPrompt.awaiting st); reflexivity.
  - reflexivity.
Qed.

(** Without a new announcement a cleared event stays cleared. *)
Lemma cleared_stays_cleared (events : list (InstallPrompt.action Event)) :
  forall st,
    forallb (fun a => negb (InstallPrompt.captures a)) events = true ->
    InstallPrompt.deferredPrompt st = None ->
    InstallPrompt.deferredPrompt (InstallPrompt.runFrom st events) = None.
Proof.
  induction events as [| a events IH]; intros st Hnc Hclr; [exact Hclr |].
  cbn [forallb] in Hnc. apply andb_true_iff in Hnc. destruct Hnc as (Hc & Hnc).
  apply (IH (InstallPrompt.step st a) Hnc).
  destruct a as [e | | [|] |]; cbn [InstallPrompt.step]; try discriminate Hc.
  - unfold InstallPrompt.handleInstall_click. now rewrite Hclr.
  - unfold InstallPrompt.handleInstall_resume.
    destruct (InstallPrompt.awaiting st); [exact Hclr | reflexivity].
  - unfold InstallPrompt.handleInstall_resume.
    destruct (InstallPrompt.awaiting st); exact Hclr.
  - exact Hclr.
Qed.

(** Without a dismissal and without an accepted installation a shown banner
    stays shown. *)
Lemma shown_stays_shown (events : list (InstallPrompt.action Event)) :
  forall st,
    forallb (fun a => negb (InstallPrompt.hides a)) events = true ->
    InstallPrompt.rendered st = true ->
    InstallPrompt.rendered (InstallPrompt.runFrom st events) = true.
Proof.
  induction events as [| a events IH]; intros st Hnh Hshown; [exact Hshown |].
  cbn [forallb] in Hnh. apply andb_true_iff in Hnh. destruct Hnh as (Hh & Hnh).
  apply (IH (InstallPrompt.step st a) Hnh).
  destruct a as [e | | [|] |]; cbn [InstallPrompt.step]; try discriminate Hh.
  - reflexivity.
  - unfold InstallPrompt.handleInstall_click.
    destruct (InstallPrompt.deferredPrompt st) eqn:E; [| exact Hshown].
    unfold InstallPrompt.rendered in *. cbn. now rewrite E in *.
  - unfold InstallPrompt.handleInstall_resume.
    destruct (InstallPrompt.awaiting st); exact Hshown.
Qed.

(** X17: after any sequence of events, a banner whose [showPrompt] is set has
    a captured event, so the banner is rendered exactly when [showPrompt] is
    set and [handleInstall] then has an event to call [prompt()] on. *)
Theorem banner_shown_has_event (events : list (InstallPrompt.action Event)) :
  (InstallPrompt.showPrompt (InstallPrompt.run events) = true ->
   exists e, InstallPrompt.prompted (InstallPrompt.run events) = Some e)
  /\ InstallPrompt.rendered (InstallPrompt.run events)
     = InstallPrompt.showPrompt (InstallPrompt.run events).
Proof.
  assert (Hok : InstallPrompt.consistent (InstallPrompt.run events)).
  { apply runFrom_consistent. unfold InstallPrompt.consistent. cbn. discriminate. }
  unfold InstallPrompt.consistent, InstallPrompt.prompted, InstallPrompt.rendered in *.
  destruct (InstallPrompt.showPrompt (InstallPrompt.run events));
    destruct (InstallPrompt.deferredPrompt (InstallPrompt.run events)) as [e |].
  - split; [intros _; now exists e | reflexivity].
  - now contradiction Hok.
  - split; [discriminate | reflexivity].
  - split; [discriminate | reflexivity].
Qed.

(** X18: dismissing the banner hides it until the browser announces
    installability again, whatever happens in between, and keeps the
    captured event as long as no installation is accepted. *)
Theorem banner_hidden_after_dismiss (pre post : list (InstallPrompt.action Event)) :
  forallb (fun a => negb (InstallPrompt.captures a)) post = true ->
  InstallPrompt.rendered (InstallPrompt.run (pre ++ InstallPrompt.ClickDismiss :: post)) = false
  /\ (forallb (fun a => negb (InstallPrompt.accepts a)) post = true ->
      InstallPrompt.deferredPrompt (InstallPrompt.run (pre ++ InstallPrompt.ClickDismiss :: post))
      = InstallPrompt.deferredPrompt (InstallPrompt.run pre)).
Proof.
  intros Hnc. rewrite banner_run_app.
  cbn [InstallPrompt.runFrom fold_left InstallPrompt.step].
  fold (InstallPrompt.runFrom (InstallPrompt.handleDismiss (InstallPrompt.run pre)) post).
  split.
  - unfold InstallPrompt.rendered.
    now rewrite (hidden_stays_hidden post (InstallPrompt.handleDismiss (InstallPrompt.run pre)) Hnc eq_refl).
  - intros Hna. now rewrite (event_stays post (InstallPrompt.handleDismiss (InstallPrompt.run pre)) Hnc Hna).
Qed.

(** X19: when the banner is shown, clicking install and accepting hides the
    banner and clears the captured event, until the browser announces
    installability again. *)
Theorem banner_cleared_after_accept (pre post : list (InstallPrompt.action Event)) :
  InstallPrompt.rendered (InstallPrompt.run pre) = true ->
  forallb (fun a => negb (InstallPrompt.captures a)) post = true ->
  InstallPrompt.rendered
    (InstallPrompt.run
       (pre ++ InstallPrompt.ClickInstall :: InstallPrompt.UserChoice InstallPrompt.accepted :: post))
  = false
  /\ InstallPrompt.deferredPrompt
       (InstallPrompt.run
          (pre ++ InstallPrompt.ClickInstall :: InstallPrompt.UserChoice InstallPrompt.accepted :: post))
     = None.
Proof.
  intros Hshown Hnc. rewrite banner_run_app.
  cbn [InstallPrompt.runFrom fold_left InstallPrompt.step].
  unfold InstallPrompt.rendered in Hshown.
  unfold InstallPrompt.handleInstall_click.
  destruct (InstallPrompt.deferredPrompt (InstallPrompt.run pre)) as [e |] eqn:E;
    [| rewrite orb_true_r in Hshown; discriminate Hshown].
  unfold InstallPrompt.handleInstall_resume. cbn [InstallPrompt.awaiting].
  match goal with
  | |- context [fold_left InstallPrompt.step post ?st] =>
      fold (InstallPrompt.runFrom st post);
      pose proof (hidden_stays_hidden post st Hnc eq_refl) as Hhid;
      pose proof (cleared_stays_cleared post st Hnc eq_refl) as Hclr
  end.
  split; [| exact Hclr].
  unfold InstallPrompt.rendered. now rewrite Hhid.
Qed.

(** X20: once the browser has announced installability the banner is
    rendered, and stays rendered until it is dismissed or an installation is
    accepted: clicking install and declining leaves it up.  If no further
    announcement arrives, the event [prompt()] is called on is the announced
    one. *)
Theorem banner_shown_after_announcement (pre post : list (InstallPrompt.action Event)) (e : Event) :
  forallb (fun a => negb (InstallPrompt.hides a)) post = true ->
  InstallPrompt.rendered (InstallPrompt.run (pre ++ InstallPrompt.BeforeInstallPrompt e :: post))
  = true
  /\ (forallb (fun a => negb (InstallPrompt.captures a)) post = true ->
      InstallPrompt.prompted (InstallPrompt.run (pre ++ InstallPrompt.BeforeInstallPrompt e :: post))
      = Some e).
Proof.
  intros Hnh. rewrite banner_run_app.
  cbn [InstallPrompt.runFrom fold_left InstallPrompt.step].
  fold (InstallPrompt.runFrom (InstallPrompt.handler e (InstallPrompt.run pre)) post).
  split.
  - apply shown_stays_shown; [exact Hnh | reflexivity].
  - intros Hnc. unfold InstallPrompt.prompted. rewrite event_stays; [reflexivity | exact Hnc |].
    clear - Hnh. induction post as [| a post IH]; [reflexivity |].
    cbn [forallb] in *. apply andb_true_iff in Hnh. destruct Hnh as (Ha & Hnh).
    rewrite (IH Hnh), andb_true_r.
    destruct a as [e' | | [|] |]; try reflexivity; discriminate Ha.
Qed.

End BannerFacts.

Lemma banner_hidden_after_dismiss_witness :
  forallb (fun a : InstallPrompt.action nat => negb (InstallPrompt.captures a))
          [InstallPrompt.ClickInstall; InstallPrompt.UserChoice InstallPrompt.dismissed] = true
  /\ InstallPrompt.rendered
       (InstallPrompt.run
          ([InstallPrompt.BeforeInstallPrompt 7%nat]
           ++ InstallPrompt.ClickDismiss
              :: [InstallPrompt.ClickInstall; InstallPrompt.UserChoice InstallPrompt.dismissed]))
     = false
  /\ (forallb (fun a : InstallPrompt.action nat => negb (InstallPrompt.accepts a))
              [InstallPrompt.ClickInstall; InstallPrompt.UserChoice InstallPrompt.dismissed] = true ->
      InstallPrompt.deferredPrompt
        (InstallPrompt.run
           ([InstallPrompt.BeforeInstallPrompt 7%nat]
            ++ InstallPrompt.ClickDismiss
               :: [InstallPrompt.ClickInstall; InstallPrompt.UserChoice InstallPrompt.dismissed]))
      = InstallPrompt.deferredPrompt (InstallPrompt.run [InstallPrompt.BeforeInstallPrompt 7%nat])).
Proof.
  split; [reflexivity |].
  exact (banner_hidden_after_dismiss nat [InstallPrompt.BeforeInstallPrompt 7%nat]
           [InstallPrompt.ClickInstall; InstallPrompt.UserChoice InstallPrompt.dismissed]
           eq_refl).
Defined.

Lemma banner_cleared_after_accept_witness :
  InstallPrompt.rendered (InstallPrompt.run [InstallPrompt.BeforeInstallPrompt 7%nat]) = true
  /\ forallb (fun a : InstallPrompt.action nat => negb (InstallPrompt.captures a)) [InstallPrompt.ClickInstall] = true
  /\ InstallPrompt.rendered
       (InstallPrompt.run
          ([InstallPrompt.BeforeInstallPrompt 7%nat]
           ++ InstallPrompt.ClickInstall
              :: InstallPrompt.UserChoice InstallPrompt.accepted :: [InstallPrompt.ClickInstall]))
     = false
  /\ InstallPrompt.deferredPrompt
       (InstallPrompt.run
          ([InstallPrompt.BeforeInstallPrompt 7%nat]
           ++ InstallPrompt.ClickInstall
              :: InstallPrompt.UserChoice InstallPrompt.accepted :: [InstallPrompt.ClickInstall]))
     = None.
Proof.
  split; [reflexivity |]. split; [reflexivity |].
  exact (banner_cleared_after_accept nat [InstallPrompt.BeforeInstallPrompt 7%nat]
           [InstallPrompt.ClickInstall] eq_refl eq_refl).
Defined.

Lemma banner_shown_after_announcement_witness :
  forallb (fun a : InstallPrompt.action nat => negb (InstallPrompt.hides a))
          [InstallPrompt.ClickInstall; InstallPrompt.UserChoice InstallPrompt.dismissed] = true
  /\ InstallPrompt.rendered
       (InstallPrompt.run
          ([InstallPrompt.ClickDismiss]
           ++ InstallPrompt.BeforeInstallPrompt 7%nat
              :: [InstallPrompt.ClickInstall; InstallPrompt.UserChoice InstallPrompt.dismissed]))
     = true
  /\ (forallb (fun a : InstallPrompt.action nat => negb (InstallPrompt.captures a))
              [InstallPrompt.ClickInstall; InstallPrompt.UserChoice InstallPrompt.dismissed]
      = true ->
      InstallPrompt.prompted
        (InstallPrompt.run
           ([InstallPrompt.ClickDismiss]
            ++ InstallPrompt.BeforeInstallPrompt 7%nat
               :: [InstallPrompt.ClickInstall; InstallPrompt.UserChoice InstallPrompt.dismissed]))
      = Some 7%nat).
Proof.
  split; [reflexivity |].
  exact (banner_shown_after_announcement nat [InstallPrompt.ClickDismiss]
           [InstallPrompt.ClickInstall; InstallPrompt.UserChoice InstallPrompt.dismissed]
           7%nat eq_refl).
Defined.

(** ** How the payment moves with the inputs *)

(** A smaller gap over a larger annuity factor asks for a smaller payment. *)
Lemma Qpayment_le (T1 P1 a1 T2 P2 a2 : Q) (e1 e2 : Z) :
  0 < a1 -> 0 < a2 -> (0 < e1)%Z -> (0 < e2)%Z ->
  T2 - P2 * Qgrowth a2 e2 <= T1 - P1 * Qgrowth a1 e1 ->
  Qannuity a1 e1 <= Qannuity a2 e2 ->
  Qpayment T2 P2 a2 e2 <= Qpayment T1 P1 a1 e1.
Proof.
  intros Ha1 Ha2 He1 He2 Hgap Hann.
  pose proof (Qannuity_pos a1 e1 Ha1 He1) as HA1.
  pose proof (Qpayment_nonneg T1 P1 a1 e1 Ha1 He1) as Hm1.
  destruct (Qlt_le_dec 0 (T2 - P2 * Qgrowth a2 e2)) as [Hrem2 | Hrem2].
  - assert (Hrem1 : 0 < T1 - P1 * Qgrowth a1 e1) by lra.
    pose proof (Qpayment_times_annuity T1 P1 a1 e1 Ha1 He1 Hrem1) as E1.
    pose proof (Qpayment_times_annuity T2 P2 a2 e2 Ha2 He2 Hrem2) as E2.
    apply Qnot_lt_le. intros Hlt.
    assert (Qpayment T1 P1 a1 e1 * Qannuity a2 e2 < Qpayment T2 P2 a2 e2 * Qannuity a2 e2) by nra.
    nra.
  - now rewrite (Qpayment_covered T2 P2 a2 e2 Hrem2).
Qed.

Lemma ltb_NaN_r (m : number) : Num.ltb m NaN = false.
Proof. destruct m; reflexivity. Qed.

(** X21: a higher target or a lower initial capital never lowers the monthly
    payment.  For every valid input, with the years and the rate fixed, the
    payment for a target at least as high and a capital at most as high is
    never less than the payment before (the test "less than" is false; at a
    rate of 0 either payment may be [NaN]). *)
Theorem payment_never_lowered_by_target_or_capital (y : Z) (T1 T2 a P1 P2 : Q) :
  valid y T1 a P1 ->
  T1 <= T2 ->
  0 <= P2 ->
  P2 <= P1 ->
  exists res1 res2,
    project y T1 a P1 = Some res1
    /\ project y T2 a P2 = Some res2
    /\ Num.ltb (CalculationResult.monthlyInvestment res2)
               (CalculationResult.monthlyInvestment res1) = false.
Proof.
  intros Hv HT HP2 HP. pose proof Hv as (Hy & HT1 & Ha0 & HP1).
  assert (Hv2 : valid y T2 a P2) by (unfold valid; repeat split; try assumption; lra).
  assert (He : (0 < y * 12)%Z) by lia.
  do 2 eexists.
  split; [apply (project_valid _ _ _ _ Hv) |].
  split; [apply (project_valid _ _ _ _ Hv2) |].
  cbn [CalculationResult.monthlyInvestment].
  pose proof (Qgrowth_ge_1 a (y * 12) Ha0 (Z.lt_le_incl _ _ He)) as Hg.
  apply Qle_lteq in Ha0. destruct Ha0 as [Hpos | Hzero].
  - rewrite !requiredPayment_Fin by assumption.
    apply not_true_iff_false. rewrite ltb_Fin. apply Qle_not_lt.
    apply Qpayment_le; try assumption; [nra | apply Qle_refl].
  - symmetry in Hzero.
    destruct (Qlt_le_dec 0 (T1 - P1)) as [Hgap | Hcov].
    + rewrite (requiredPayment_zero_rate T1 P1 a (y * 12) Hzero He Hgap). apply ltb_NaN_r.
    + rewrite (requiredPayment_covered T1 P1 a (y * 12) He)
        by (pose proof (Qgrowth_zero_rate a (y * 12) Hzero); nra).
      destruct (requiredPayment_shape T2 P2 a (y * 12)) as [-> | (q & -> & Hq)];
        [lra | exact He | reflexivity |].
      apply not_true_iff_false. rewrite ltb_Fin. lra.
Qed.

Lemma payment_never_lowered_by_target_or_capital_witness :
  valid 1 1200 12 500 /\ 1200 <= 2400 /\ 0 <= 100 /\ 100 <= 500
  /\ exists res1 res2,
       project 1 1200 12 500 = Some res1
       /\ project 1 2400 12 100 = Some res2
       /\ Num.ltb (CalculationResult.monthlyInvestment res2)
                  (CalculationResult.monthlyInvestment res1) = false.
Proof.
  assert (Hv : valid 1 1200 12 500) by valid_by_computation.
  assert (HT : 1200 <= 2400) by (vm_compute; congruence).
  assert (HP2 : 0 <= 100) by (vm_compute; congruence).
  assert (HP : 100 <= 500) by (vm_compute; congruence).
  repeat (split; [assumption |]).
  exact (payment_never_lowered_by_target_or_capital 1 1200 2400 12 500 100 Hv HT HP2 HP).
Defined.
